(** * mcp-router: service registry and tool dispatcher

    A shallow embedding of [discovery_service.py] and [mcp_router.py].

    Python code is embedded in a state-and-exception monad.  The state holds
    what the program can observe or change: the vector-store collection, the
    log of calls made to the outside (embedding provider, vector store, HTTP
    client, SSE client and session), and, inside the streaming transport, the
    local [AsyncExitStack].  The outside world is a record of oracles, each of
    which sees the log at the time of the call, so that any call may fail,
    succeed or be cancelled, differently at each call. *)

From Stdlib Require Import ZArith List String Ascii Bool Lia Permutation.
From Stdlib Require Import DecimalString DecimalZ DecimalPos DecimalFacts DecimalN.
Import ListNotations.

Local Open Scope string_scope.
Local Open Scope list_scope.
Local Open Scope Z_scope.

Set Warnings "-register-all".

(** Concatenation of Python strings (f-strings and [+]). *)
Infix "+++" := String.append (right associativity, at level 60).

(* ================================================================= *)
(** ** JSON values *)

(** Values that [json.dumps] / [json.loads] exchange, floats left out:
    [None], [bool], [int], [str], [list] and [dict] with [str] keys.  A dict
    keeps its insertion order, which is the order [json.dumps] prints. *)
Inductive json : Type :=
| JNull
| JBool (b : bool)
| JInt (n : Z)
| JStr (s : string)
| JArr (items : list json)
| JObj (members : list (string * json)).

(* ================================================================= *)
(** ** Python outcomes *)

(** What a [raise] carries.  [Exception msg] is an instance of [Exception]
    or of one of its subclasses, with [str(e) = msg]; it is what
    [except Exception] catches.  [CancelledError] stands for the exceptions
    that derive from [BaseException] only ([asyncio.CancelledError],
    [KeyboardInterrupt]); [except Exception] lets them through. *)
Inductive raised : Type :=
| Exception (msg : string)
| CancelledError.

Inductive outcome (A : Type) : Type :=
| Return (a : A)
| Raise (e : raised).
Arguments Return {A} a.
Arguments Raise {A} e.

(** A computation over a state [S]: the state survives a raise. *)
Definition M (S A : Type) : Type := S -> outcome A * S.

Definition ret {S A} (a : A) : M S A := fun s => (Return a, s).

Definition raise {S A} (e : raised) : M S A := fun s => (Raise e, s).

Definition bind {S A B} (m : M S A) (k : A -> M S B) : M S B :=
  fun s =>
    match m s with
    | (Return a, s') => k a s'
    | (Raise e, s') => (Raise e, s')
    end.

Notation "x <- m ;; k" := (bind m (fun x => k))
  (at level 61, m at next level, right associativity).
Notation "m ;;; k" := (bind m (fun _ => k))
  (at level 61, right associativity).

(** [try: body  except Exception as e: handler(str(e))]. *)
Definition try_except {S A} (body : M S A) (handler : string -> M S A) : M S A :=
  fun s =>
    match body s with
    | (Raise (Exception msg), s') => handler msg s'
    | r => r
    end.

(** [try: body  finally: cleanup].  The clean-up always runs; when it raises,
    its exception replaces the outcome of the body. *)
Definition try_finally {S A} (body : M S A) (cleanup : M S unit) : M S A :=
  fun s =>
    let '(r, s1) := body s in
    match cleanup s1 with
    | (Return _, s2) => (r, s2)
    | (Raise e, s2) => (Raise e, s2)
    end.

(** A computation over the world alone, run where a local object [L] is also
    in scope. *)
Definition lift {L S A} (m : M S A) : M (L * S) A :=
  fun ls => let '(r, s') := m (snd ls) in (r, (fst ls, s')).

(** Scope of a local object: created as [init], dropped at the end. *)
Definition with_local {L S A} (init : L) (m : M (L * S) A) : M S A :=
  fun s => let '(r, ls) := m (init, s) in (r, snd ls).

(* ================================================================= *)
(** ** json.dumps and json.loads *)

(** The codec of Python's [json] module, on the values of [json] above, as
    the router calls it: [json.dumps(v, ensure_ascii=False)] with the default
    separators, and [json.loads(s)].  A Python [str] is held as its UTF-8
    bytes; with [ensure_ascii=False] the bytes of a non-ASCII character pass
    through both directions unchanged.  Left out: floats (with [NaN] and
    [Infinity]), which the decoder below answers with no value, and the
    joining of surrogate pairs in [\uXXXX] escapes. *)

Definition dquote : ascii := "034"%char.
Definition backslash : ascii := "092"%char.

Definition hex_digit (n : nat) : ascii :=
  match n with
  | 0 => "0" | 1 => "1" | 2 => "2" | 3 => "3" | 4 => "4" | 5 => "5" | 6 => "6"
  | 7 => "7" | 8 => "8" | 9 => "9" | 10 => "a" | 11 => "b" | 12 => "c"
  | 13 => "d" | 14 => "e" | _ => "f"
  end%nat%char.

(** [ESCAPE_DCT] of [json.encoder]: the quote, the backslash and the control
    characters are escaped, everything else is written as it is. *)
Definition escape_char (c : ascii) : string :=
  let n := nat_of_ascii c in
  if Ascii.eqb c dquote then String backslash (String dquote EmptyString)
  else if Ascii.eqb c backslash then String backslash (String backslash EmptyString)
  else if (n =? 10)%nat then String backslash "n"
  else if (n =? 13)%nat then String backslash "r"
  else if (n =? 9)%nat then String backslash "t"
  else if (n =? 8)%nat then String backslash "b"
  else if (n =? 12)%nat then String backslash "f"
  else if (n <? 32)%nat then
    String backslash
      (String "u" (String "0" (String "0"
         (String (hex_digit (n / 16)) (String (hex_digit (n mod 16)) EmptyString)))))
  else String c EmptyString.

Fixpoint escape (s : string) : string :=
  match s with
  | EmptyString => EmptyString
  | String c s' => escape_char c +++ escape s'
  end.

(** [encode_basestring]. *)
Definition dumps_str (s : string) : string :=
  String dquote (escape s +++ String dquote EmptyString).

(** [int.__repr__]. *)
Definition dumps_int (n : Z) : string := NilEmpty.string_of_int (Z.to_int n).

Fixpoint json_dumps (v : json) : string :=
  match v with
  | JNull => "null"
  | JBool true => "true"
  | JBool false => "false"
  | JInt n => dumps_int n
  | JStr s => dumps_str s
  | JArr [] => "[]"
  | JArr (x :: items) =>
      "[" +++ json_dumps x +++
      (fix rest (l : list json) : string :=
         match l with
         | [] => "]"
         | y :: l' => ", " +++ json_dumps y +++ rest l'
         end) items
  | JObj [] => "{}"
  | JObj ((k, x) :: members) =>
      "{" +++ dumps_str k +++ ": " +++ json_dumps x +++
      (fix rest (l : list (string * json)) : string :=
         match l with
         | [] => "}"
         | (k', y) :: l' => ", " +++ dumps_str k' +++ ": " +++ json_dumps y +++ rest l'
         end) members
  end.

(** [WHITESPACE] of [json.decoder]. *)
Definition is_ws (c : ascii) : bool :=
  let n := nat_of_ascii c in
  ((n =? 32) || (n =? 9) || (n =? 10) || (n =? 13))%nat.

Fixpoint skip_ws (s : string) : string :=
  match s with
  | String c s' => if is_ws c then skip_ws s' else s
  | EmptyString => s
  end.

Definition is_digit (c : ascii) : bool :=
  let n := nat_of_ascii c in ((48 <=? n) && (n <=? 57))%nat.

Definition hex_value (c : ascii) : option nat :=
  let n := nat_of_ascii c in
  if ((48 <=? n) && (n <=? 57))%nat then Some (n - 48)%nat
  else if ((97 <=? n) && (n <=? 102))%nat then Some (n - 87)%nat
  else if ((65 <=? n) && (n <=? 70))%nat then Some (n - 55)%nat
  else None.

(** UTF-8 bytes of a code point of the basic plane (what a [\uXXXX] escape
    denotes; a surrogate pair is not joined). *)
Definition utf8 (cp : nat) : string :=
  (if cp <? 128 then String (ascii_of_nat cp) EmptyString
   else if cp <? 2048 then
     String (ascii_of_nat (192 + cp / 64))
       (String (ascii_of_nat (128 + cp mod 64)) EmptyString)
   else
     String (ascii_of_nat (224 + cp / 4096))
       (String (ascii_of_nat (128 + (cp / 64) mod 64))
          (String (ascii_of_nat (128 + cp mod 64)) EmptyString)))%nat.

(** [BACKSLASH] of [json.decoder]. *)
Definition unescape (e : ascii) : option ascii :=
  if Ascii.eqb e dquote then Some dquote
  else if Ascii.eqb e backslash then Some backslash
  else if Ascii.eqb e "/" then Some "/"%char
  else if Ascii.eqb e "b" then Some (ascii_of_nat 8)
  else if Ascii.eqb e "f" then Some (ascii_of_nat 12)
  else if Ascii.eqb e "n" then Some (ascii_of_nat 10)
  else if Ascii.eqb e "r" then Some (ascii_of_nat 13)
  else if Ascii.eqb e "t" then Some (ascii_of_nat 9)
  else None.

Definition prepend (p : string) (r : option (string * string)) : option (string * string) :=
  match r with
  | Some (s, rest) => Some (p +++ s, rest)
  | None => None
  end.

(** [scanstring] (strict): the text after an opening quote, up to the closing
    one; gives the decoded string and what follows the closing quote. *)
Fixpoint scanstring (s : string) : option (string * string) :=
  match s with
  | EmptyString => None
  | String c rest =>
      if Ascii.eqb c dquote then Some (EmptyString, rest)
      else if Ascii.eqb c backslash then
        match rest with
        | String "u" (String h1 (String h2 (String h3 (String h4 rest')))) =>
            match hex_value h1, hex_value h2, hex_value h3, hex_value h4 with
            | Some a, Some b, Some c', Some d =>
                prepend (utf8 (((a * 16 + b) * 16 + c') * 16 + d)) (scanstring rest')
            | _, _, _, _ => None
            end
        | String e rest' =>
            match unescape e with
            | Some ch => prepend (String ch EmptyString) (scanstring rest')
            | None => None
            end
        | EmptyString => None
        end
      else if (nat_of_ascii c <? 32)%nat then None
      else prepend (String c EmptyString) (scanstring rest)
  end.

(** [s[end:end + 1] == c]. *)
Definition nextchar_is (c : ascii) (s : string) : bool :=
  match s with
  | String c' _ => Ascii.eqb c' c
  | EmptyString => false
  end.

(** [end += 1]. *)
Definition advance (s : string) : string :=
  match s with
  | String _ s' => s'
  | EmptyString => EmptyString
  end.

(** [s[end:end + len(p)] == p], and what follows. *)
Fixpoint strip_prefix (p s : string) : option string :=
  match p, s with
  | EmptyString, _ => Some s
  | String a p', String b s' => if Ascii.eqb a b then strip_prefix p' s' else None
  | String _ _, EmptyString => None
  end.

(** The longest prefix of digits, and the rest. *)
Fixpoint span_digits (s : string) : string * string :=
  match s with
  | String c s' =>
      if is_digit c then let '(ds, rest) := span_digits s' in (String c ds, rest)
      else (EmptyString, s)
  | EmptyString => (EmptyString, s)
  end.

(** Does a fraction or an exponent follow?  Then the number is a float, which
    this model leaves out. *)
Definition float_follows (s : string) : bool :=
  nextchar_is "." s || nextchar_is "e" s || nextchar_is "E" s.

(** The integer part of [NUMBER_RE]: a lone zero, or a digit from 1 to 9
    followed by digits. *)
Definition scan_digits (s : string) : option (Z * string) :=
  if nextchar_is "0" s then Some (0, advance s)
  else
    match span_digits s with
    | (EmptyString, _) => None
    | (ds, rest) =>
        option_map (fun u => (Z.of_uint u, rest)) (NilEmpty.uint_of_string ds)
    end.

Definition scan_number (s : string) : option (json * string) :=
  let r :=
    if nextchar_is "-" s then
      option_map (fun '(n, rest) => (- n, rest)) (scan_digits (advance s))
    else scan_digits s in
  match r with
  | Some (n, rest) => if float_follows rest then None else Some (JInt n, rest)
  | None => None
  end.

(** [dict(pairs)]: a later pair with a key already present replaces the value
    and keeps the key's place. *)
Fixpoint dict_set (k : string) (v : json) (d : list (string * json)) : list (string * json) :=
  match d with
  | [] => [(k, v)]
  | (k', v') :: d' =>
      if String.eqb k' k then (k', v) :: d' else (k', v') :: dict_set k v d'
  end.

Definition dict_of_pairs (pairs : list (string * json)) : list (string * json) :=
  fold_left (fun d kv => dict_set (fst kv) (snd kv) d) pairs [].

(** [scan_once], [JSONArray] and [JSONObject] of [json.decoder] and
    [json.scanner].  [fuel] bounds the nesting and the number of items; the
    length of the text is always enough.  [scan_items] and [scan_members]
    read from the first item, after the opening bracket and white space. *)
Fixpoint scan_once (fuel : nat) (s : string) : option (json * string) :=
  match fuel with
  | O => None
  | S fuel' =>
      if nextchar_is dquote s then
        match scanstring (advance s) with
        | Some (str, rest) => Some (JStr str, rest)
        | None => None
        end
      else if nextchar_is "{" s then
        let s1 := skip_ws (advance s) in
        if nextchar_is "}" s1 then Some (JObj [], advance s1)
        else
          match scan_members fuel' s1 with
          | Some (pairs, rest) => Some (JObj (dict_of_pairs pairs), rest)
          | None => None
          end
      else if nextchar_is "[" s then
        let s1 := skip_ws (advance s) in
        if nextchar_is "]" s1 then Some (JArr [], advance s1)
        else
          match scan_items fuel' s1 with
          | Some (values, rest) => Some (JArr values, rest)
          | None => None
          end
      else
        match strip_prefix "null" s with
        | Some rest => Some (JNull, rest)
        | None =>
            match strip_prefix "true" s with
            | Some rest => Some (JBool true, rest)
            | None =>
                match strip_prefix "false" s with
                | Some rest => Some (JBool false, rest)
                | None => scan_number s
                end
            end
        end
  end

with scan_items (fuel : nat) (s : string) : option (list json * string) :=
  match fuel with
  | O => None
  | S fuel' =>
      match scan_once fuel' s with
      | Some (value, s1) =>
          let s2 := skip_ws s1 in
          if nextchar_is "]" s2 then Some ([value], advance s2)
          else if nextchar_is "," s2 then
            match scan_items fuel' (skip_ws (advance s2)) with
            | Some (values, rest) => Some (value :: values, rest)
            | None => None
            end
          else None
      | None => None
      end
  end

with scan_members (fuel : nat) (s : string) : option (list (string * json) * string) :=
  match fuel with
  | O => None
  | S fuel' =>
      if nextchar_is dquote s then
        match scanstring (advance s) with
        | Some (key, s1) =>
            let s2 := skip_ws s1 in
            if nextchar_is ":" s2 then
              match scan_once fuel' (skip_ws (advance s2)) with
              | Some (value, s3) =>
                  let s4 := skip_ws s3 in
                  if nextchar_is "}" s4 then Some ([(key, value)], advance s4)
                  else if nextchar_is "," s4 then
                    match scan_members fuel' (skip_ws (advance s4)) with
                    | Some (pairs, rest) => Some ((key, value) :: pairs, rest)
                    | None => None
                    end
                  else None
              | None => None
              end
            else None
        | None => None
        end
      else None
  end.

(** [json.loads]: a value between optional white space, and nothing else.  A
    [JSONDecodeError] is an [Exception]; the position it reports is left out
    of its message. *)
Definition json_loads (s : string) : outcome json :=
  match scan_once (S (String.length s)) (skip_ws s) with
  | Some (v, rest) =>
      match skip_ws rest with
      | EmptyString => Return v
      | _ => Raise (Exception "Extra data")
      end
  | None => Raise (Exception "Expecting value")
  end.

(** A value Python can hold: the keys of every dict are distinct. *)
Fixpoint distinct_keys (keys : list string) : bool :=
  match keys with
  | [] => true
  | k :: keys' => negb (existsb (String.eqb k) keys') && distinct_keys keys'
  end.

Fixpoint well_formed (v : json) : bool :=
  match v with
  | JArr items =>
      (fix all (l : list json) : bool :=
         match l with
         | [] => true
         | x :: l' => well_formed x && all l'
         end) items
  | JObj members =>
      distinct_keys (map fst members) &&
      (fix all (l : list (string * json)) : bool :=
         match l with
         | [] => true
         | (_, x) :: l' => well_formed x && all l'
         end) members
  | _ => true
  end.

(** *** Notions for the round trip through the codec *)

(** What may follow a value in the text [json.dumps] writes: the end, or a
    comma, or a closing bracket or brace. *)
Definition delimited (rest : string) : bool :=
  match rest with
  | EmptyString => true
  | String c _ => Ascii.eqb c "," || Ascii.eqb c "]" || Ascii.eqb c "}"
  end.

(** The characters a printed value can start with. *)
Definition value_start (c : ascii) : bool :=
  Ascii.eqb c dquote || Ascii.eqb c "{" || Ascii.eqb c "[" || Ascii.eqb c "n" ||
  Ascii.eqb c "t" || Ascii.eqb c "f" || Ascii.eqb c "-" || is_digit c.

(** The text after the first item of a list, and of a dict. *)
Fixpoint items_tail (l : list json) : string :=
  match l with
  | [] => "]"
  | y :: l' => ", " +++ json_dumps y +++ items_tail l'
  end.

Fixpoint members_tail (l : list (string * json)) : string :=
  match l with
  | [] => "}"
  | (k, y) :: l' => ", " +++ dumps_str k +++ ": " +++ json_dumps y +++ members_tail l'
  end.

(** [well_formed] on the items of a list, and on the values of a dict. *)
Fixpoint all_well_formed (l : list json) : bool :=
  match l with
  | [] => true
  | x :: l' => well_formed x && all_well_formed l'
  end.

Fixpoint all_members_well_formed (l : list (string * json)) : bool :=
  match l with
  | [] => true
  | (_, x) :: l' => well_formed x && all_members_well_formed l'
  end.

(** Decoding gives back the value and stops right after its text. *)
Definition decodes_back (v : json) : Prop :=
  forall fuel rest,
    (String.length (json_dumps v) <= fuel)%nat -> delimited rest = true ->
    scan_once fuel (json_dumps v +++ rest) = Some (v, rest).

(* ================================================================= *)
(** ** The outside world *)

(** An embedding vector.  Its numbers only matter through [similarity]. *)
Definition Vector : Type := list Z.

(** The metadata [add_server] stores with a record ([service_metadata]). *)
Record Fields : Type := mkFields {
  f_server_description : string;
  f_server_endpoint : string;
  f_tools : string
}.

(** [dashvector.Doc(id=..., vector=..., fields=...)]. *)
Record Doc : Type := mkDoc {
  doc_id : string;
  doc_vector : Vector;
  doc_fields : Fields
}.

(** A document of a query response: [doc.id], [doc.fields], [doc.score]. *)
Record ScoredDoc : Type := mkScoredDoc {
  sd_id : string;
  sd_fields : Fields;
  sd_score : Z
}.

(** The response of [TextEmbedding.call]: [status_code], [message] and the
    vectors of [output['embeddings']]. *)
Record EmbeddingResponse : Type := mkEmbeddingResponse {
  status_code : Z;
  message : string;
  output_embeddings : list Vector
}.

(** The two resources of the streaming transport, in order of acquisition. *)
Inductive Resource : Type := Stream | Session.

(** What a remote [call_tool] may hand back, as far as [_execute_sse_tool]
    tells: an object with [_asdict], an object with [__dict__], anything else. *)
Inductive ToolResult : Type :=
| WithAsdict (asdict : json)
| WithDict (dict : json)
| Plain (v : json).

(** Calls that leave the process, in the order they are made. *)
Inductive Event : Type :=
| EvEmbed (text : string)
| EvInsert (d : Doc)
| EvQuery (v : Vector) (topk : Z)
| EvPost (endpoint : string) (body : json)
| EvEnter (r : Resource) (acquired : bool)
| EvInitialize
| EvCallTool (name : string) (arguments : json)
| EvExit (r : Resource).

Definition History : Type := list Event.

(** The external collaborators.  Every oracle receives the history of calls
    made so far. *)
Record Env : Type := mkEnv {
  (** [TextEmbedding.call(model=..., input=text)] *)
  TextEmbedding_call : History -> string -> outcome EmbeddingResponse;
  (** truth value of the response of [collection.insert] *)
  insert_response : History -> Doc -> outcome bool;
  (** truth value of the response of [collection.query] *)
  query_response : History -> Vector -> Z -> outcome bool;
  (** the store's ranking of a stored vector against a query vector *)
  similarity : Vector -> Vector -> Z;
  (** [client.post(endpoint, json=...)], then [response.json()] *)
  http_post : History -> string -> json -> outcome (outcome json);
  (** [sse_client(endpoint).__aenter__()] *)
  sse_client_aenter : History -> string -> outcome unit;
  (** [ClientSession(streams[0], streams[1]).__aenter__()] *)
  ClientSession_aenter : History -> outcome unit;
  (** [session.initialize()] *)
  session_initialize : History -> outcome unit;
  (** [session.call_tool(tool_name, parameters)] *)
  session_call_tool : History -> string -> json -> outcome ToolResult;
  (** [__aexit__(None, None, None)] of a resource; [true] asks to suppress *)
  resource_aexit : History -> Resource -> outcome bool
}.

(** The state of the process as the program sees it. *)
Record World : Type := mkWorld {
  collection : list Doc;
  log : History
}.

Definition record_event (ev : Event) (w : World) : World :=
  {| collection := collection w; log := log w ++ [ev] |}.

(** An external call that does not touch the collection: it is logged, and
    its outcome is what the oracle says given the history before the call. *)
Definition external {A} (ev : Event) (oracle : History -> outcome A) : M World A :=
  fun w => (oracle (log w), record_event ev w).

(* ================================================================= *)
(** ** The vector store *)

(** Modelled from the spec: the vector store is the external [dashvector]
    service, absent from the sources.  Spec sections 2 and 6 give its
    contract: upsert-by-id, and a top-k nearest-neighbour query that returns
    [{id, fields, score}] ordered by descending similarity score. *)
Fixpoint upsert (d : Doc) (c : list Doc) : list Doc :=
  match c with
  | [] => [d]
  | x :: c' => if String.eqb (doc_id x) (doc_id d) then d :: c' else x :: upsert d c'
  end.

Definition score_doc (sim : Vector -> Vector -> Z) (q : Vector) (d : Doc) : ScoredDoc :=
  {| sd_id := doc_id d; sd_fields := doc_fields d; sd_score := sim q (doc_vector d) |}.

(** Insertion into a list ordered by descending score; among equal scores the
    earlier record stays first. *)
Fixpoint insert_ranked (x : ScoredDoc) (l : list ScoredDoc) : list ScoredDoc :=
  match l with
  | [] => [x]
  | y :: l' => if sd_score y <=? sd_score x then x :: l else y :: insert_ranked x l'
  end.

Fixpoint rank (l : list ScoredDoc) : list ScoredDoc :=
  match l with
  | [] => []
  | x :: l' => insert_ranked x (rank l')
  end.

(** Modelled from the spec: the [topk] nearest records, best first. *)
Definition nearest (sim : Vector -> Vector -> Z) (q : Vector) (topk : Z) (c : list Doc)
  : list ScoredDoc :=
  firstn (Z.to_nat topk) (rank (map (score_doc sim q) c)).

Section Registry.

Variable env : Env.

(** [self.collection.insert(doc)]: [Return true] for a truthy response.
    Modelled from the spec: with a truthy response the record has been
    upserted under its id; otherwise the collection is as it was. *)
Definition collection_insert (d : Doc) : M World bool :=
  fun w =>
    let w1 := record_event (EvInsert d) w in
    match insert_response env (log w) d with
    | Return true => (Return true, {| collection := upsert d (collection w1); log := log w1 |})
    | Return false => (Return false, w1)
    | Raise e => (Raise e, w1)
    end.

(** [self.collection.query(v, topk=..., output_fields=[...])]: [Some output]
    for a truthy response, [None] for a falsy one.  Modelled from the spec:
    the output of a truthy response is the [topk] nearest records. *)
Definition collection_query (v : Vector) (topk : Z) : M World (option (list ScoredDoc)) :=
  fun w =>
    let w1 := record_event (EvQuery v topk) w in
    match query_response env (log w) v topk with
    | Return true => (Return (Some (nearest (similarity env) v topk (collection w))), w1)
    | Return false => (Return None, w1)
    | Raise e => (Raise e, w1)
    end.

(* ================================================================= *)
(** ** discovery_service.py *)

(** [DiscoveryService._generate_embedding], for [text] a [str]. *)
Definition _generate_embedding (text : string) : M World Vector :=
  rsp <- external (EvEmbed text) (fun h => TextEmbedding_call env h text) ;;
  if negb (status_code rsp =? 200) then
    raise (Exception ("Failed to generate embedding: " +++ message rsp))
  else
    let embeddings := output_embeddings rsp in
    match embeddings with
    | e0 :: _ => ret e0
    | [] => raise (Exception "list index out of range")
    end.

(** [DiscoveryService.add_server]. *)
Definition add_server (server_name server_description server_endpoint tools : string)
  : M World json :=
  service_vector <- _generate_embedding server_description ;;
  let service_metadata :=
    {| f_server_description := server_description;
       f_server_endpoint := server_endpoint;
       f_tools := tools |} in
  rsp <- collection_insert
           {| doc_id := server_name; doc_vector := service_vector;
              doc_fields := service_metadata |} ;;
  if negb rsp then
    raise (Exception ("Failed to insert server '" +++ server_name +++ "' into DashVector"))
  else
    ret (JObj [("status", JStr "success");
               ("message", JStr ("Server '" +++ server_name +++ "' registered."))]).

(** One entry of the list [search_server] returns. *)
Record SearchResult : Type := mkSearchResult {
  server_name : string;
  server_description : string;
  server_endpoint : string;
  tools : string;
  score : Z
}.

Definition result_of_doc (doc : ScoredDoc) : SearchResult :=
  {| server_name := sd_id doc;
     server_description := f_server_description (sd_fields doc);
     server_endpoint := f_server_endpoint (sd_fields doc);
     tools := f_tools (sd_fields doc);
     score := sd_score doc |}.

(** [DiscoveryService.search_server]. *)
Definition search_server (query : string) (top_k : Z) : M World (list SearchResult) :=
  query_vector <- _generate_embedding query ;;
  rsp <- collection_query query_vector top_k ;;
  match rsp with
  | None => raise (Exception "Failed to query DashVector")
  | Some output => ret (map result_of_doc output)
  end.

(** The loop [for result in results: if result["server_name"] == server_name:
    return result["server_endpoint"]]; [None] when it falls through. *)
Fixpoint find_exact (name : string) (results : list SearchResult) : option string :=
  match results with
  | [] => None
  | result :: rest =>
      if String.eqb (server_name result) name then Some (server_endpoint result)
      else find_exact name rest
  end.

(** [DiscoveryService.get_server_endpoint].  The [try] block yields
    [Some endpoint] where the source returns from inside it and [None] where
    control leaves it, normally or through the handler's [pass]. *)
Definition get_server_endpoint (name : string) : M World string :=
  found <- try_except
             (results <- search_server name 20 ;;
              match find_exact name results with
              | Some endpoint => ret (Some endpoint)
              | None =>
                  general_results <- search_server "" 100 ;;
                  ret (find_exact name general_results)
              end)
             (fun _ => ret None) ;;
  match found with
  | Some endpoint => ret endpoint
  | None => raise (Exception ("Server '" +++ name +++ "' not found"))
  end.

End Registry.

(* ================================================================= *)
(** ** mcp_router.py *)

(** [str.lower()].  Only the letters A to Z are mapped.  The test below looks
    for the letters [s] and [e], and no character outside ASCII lowers to
    either of them, so the bytes of the other characters can stay as they
    are. *)
Definition lower_char (c : ascii) : ascii :=
  let n := nat_of_ascii c in
  if ((65 <=? n) && (n <=? 90))%nat then ascii_of_nat (n + 32) else c.

Fixpoint lower (s : string) : string :=
  match s with
  | EmptyString => EmptyString
  | String c s' => String (lower_char c) (lower s')
  end.

(** [sub in s] on strings. *)
Fixpoint contains (sub s : string) : bool :=
  String.prefix sub s ||
  match s with
  | EmptyString => false
  | String _ s' => contains sub s'
  end.

(** The test [exec_mcp_tool] applies to the endpoint, without the flag. *)
Definition sse_marker (target_endpoint : string) : bool :=
  contains "sse" (lower target_endpoint).

(** [json.dumps({"error": str(e)}, ensure_ascii=False)]. *)
Definition error_payload (msg : string) : string :=
  json_dumps (JObj [("error", JStr msg)]).

(** An entry of [results] once its ["tools"] has been replaced by the parsed
    value. *)
Record ParsedResult : Type := mkParsedResult {
  p_server_name : string;
  p_server_description : string;
  p_server_endpoint : string;
  p_tools : json;
  p_score : Z
}.

Definition json_of_result (r : ParsedResult) : json :=
  JObj [("server_name", JStr (p_server_name r));
        ("server_description", JStr (p_server_description r));
        ("server_endpoint", JStr (p_server_endpoint r));
        ("tools", p_tools r);
        ("score", JInt (p_score r))].

(** [for result in results: result["tools"] = json.loads(result["tools"])]. *)
Fixpoint parse_tools {S} (results : list SearchResult) : M S (list ParsedResult) :=
  match results with
  | [] => ret []
  | result :: rest =>
      parsed <- (fun s => (json_loads (tools result), s)) ;;
      rest' <- parse_tools rest ;;
      ret ({| p_server_name := server_name result;
              p_server_description := server_description result;
              p_server_endpoint := server_endpoint result;
              p_tools := parsed;
              p_score := score result |} :: rest')
  end.

(** The stack of exit callbacks of an [AsyncExitStack], last pushed first. *)
Definition ExitStack : Type := list Resource.

Definition AsyncExitStack : ExitStack := [].

(** [{"jsonrpc": "2.0", "method": "tools/call", "params": {...}, "id": 1}]. *)
Definition json_rpc_request (tool_name : string) (parameters : json) : json :=
  JObj [("jsonrpc", JStr "2.0");
        ("method", JStr "tools/call");
        ("params", JObj [("name", JStr tool_name); ("arguments", parameters)]);
        ("id", JInt 1)].

(** The conversion of [result] in [_execute_sse_tool]: [result._asdict()],
    else [result.__dict__], else [result] itself. *)
Definition flatten (result : ToolResult) : json :=
  match result with
  | WithAsdict d => d
  | WithDict d => d
  | Plain v => v
  end.

Section Router.

Variable env : Env.

(** The module-level flag set by the import of the SSE components. *)
Variable HAVE_SSE_SUPPORT : bool.

(** [search_mcp_server]. *)
Definition search_mcp_server (query : string) (top_k : Z) : M World string :=
  try_except
    (results <- search_server env query top_k ;;
     results <- parse_tools results ;;
     ret (json_dumps (JArr (map json_of_result results))))
    (fun msg => ret (error_payload msg)).

(** [add_mcp_server]. *)
Definition add_mcp_server (server_name server_description server_endpoint : string)
    (tools : list json) : M World string :=
  try_except
    (let tools_json := json_dumps (JArr tools) in
     result <- add_server env server_name server_description server_endpoint tools_json ;;
     ret (json_dumps result))
    (fun msg => ret (error_payload msg)).

(** [exit_stack.enter_async_context(cm)]: [cm.__aenter__()] is awaited, and
    only when it returns is [cm.__aexit__] pushed on the stack. *)
Definition enter_async_context {A} (r : Resource) (aenter : History -> outcome A)
  : M (ExitStack * World) A :=
  fun '(exit_stack, w) =>
    match aenter (log w) with
    | Return a => (Return a, (r :: exit_stack, record_event (EvEnter r true) w))
    | Raise e => (Raise e, (exit_stack, record_event (EvEnter r false) w))
    end.

(** The loop of [AsyncExitStack.__aexit__]: every callback is popped and
    called, whatever the earlier ones did; an exception raised by a callback
    stays pending until a later callback asks to suppress it. *)
Fixpoint run_exit_callbacks (callbacks : ExitStack) (pending : option raised) (w : World)
  : option raised * World :=
  match callbacks with
  | [] => (pending, w)
  | r :: rest =>
      let w1 := record_event (EvExit r) w in
      match resource_aexit env (log w) r with
      | Return true => run_exit_callbacks rest None w1
      | Return false => run_exit_callbacks rest pending w1
      | Raise e => run_exit_callbacks rest (Some e) w1
      end
  end.

(** [exit_stack.aclose()], that is [__aexit__(None, None, None)]. *)
Definition aclose : M (ExitStack * World) unit :=
  fun '(exit_stack, w) =>
    let '(pending, w') := run_exit_callbacks exit_stack None w in
    match pending with
    | Some e => (Raise e, ([], w'))
    | None => (Return tt, ([], w'))
    end.

(** [_execute_sse_tool]. *)
Definition _execute_sse_tool (endpoint tool_name : string) (parameters : json)
  : M World string :=
  with_local AsyncExitStack
    (try_finally
       (streams <- enter_async_context Stream (fun h => sse_client_aenter env h endpoint) ;;
        session <- enter_async_context Session (ClientSession_aenter env) ;;
        lift (external EvInitialize (session_initialize env)) ;;;
        result <- lift (external (EvCallTool tool_name parameters)
                          (fun h => session_call_tool env h tool_name parameters)) ;;
        ret (json_dumps (flatten result)))
       aclose).

(** [_execute_http_tool]. *)
Definition _execute_http_tool (endpoint tool_name : string) (parameters : json)
  : M World string :=
  let request := json_rpc_request tool_name parameters in
  response <- external (EvPost endpoint request)
                (fun h => http_post env h endpoint request) ;;
  response_data <- (fun w => (response, w)) ;;
  ret (json_dumps response_data).

(** The body of the [try] of [exec_mcp_tool]. *)
Definition dispatch (target_server_name target_tool_name : string) (parameters : json)
  : M World string :=
  target_endpoint <- get_server_endpoint env target_server_name ;;
  if contains "sse" (lower target_endpoint) && HAVE_SSE_SUPPORT then
    _execute_sse_tool target_endpoint target_tool_name parameters
  else
    _execute_http_tool target_endpoint target_tool_name parameters.

(** [exec_mcp_tool]. *)
Definition exec_mcp_tool (target_server_name target_tool_name : string) (parameters : json)
  : M World string :=
  try_except
    (dispatch target_server_name target_tool_name parameters)
    (fun msg => ret (error_payload msg)).

End Router.

(* ================================================================= *)
(** ** Observations on a run *)

(** The world after a computation, and its outcome. *)
Definition after {A} (m : M World A) (w : World) : World := snd (m w).
Definition outcome_of {A} (m : M World A) (w : World) : outcome A := fst (m w).

(** The message of [get_server_endpoint]'s final [raise]. *)
Definition not_found (name : string) : raised :=
  Exception ("Server '" +++ name +++ "' not found").


(** The store's invariant: no two records share an id. *)
Definition unique_ids (w : World) : Prop := NoDup (map doc_id (collection w)).

(** The records a world holds for an identity. *)
Definition records_of (name : string) (w : World) : list Doc :=
  filter (fun d => String.eqb (doc_id d) name) (collection w).

(** Resources acquired, and resources released, in the order of the log. *)
Definition acquisitions (evs : list Event) : list Resource :=
  flat_map (fun ev => match ev with EvEnter r true => [r] | _ => [] end) evs.

Definition releases (evs : list Event) : list Resource :=
  flat_map (fun ev => match ev with EvExit r => [r] | _ => [] end) evs.

(** Every release comes after every acquisition. *)
Fixpoint releases_last (evs : list Event) : bool :=
  match evs with
  | [] => true
  | EvExit _ :: evs' => forallb (fun ev => match ev with EvExit _ => true | _ => false end) evs'
  | _ :: evs' => releases_last evs'
  end.

(** Is the call a POST of the request/response transport? *)
Definition is_post (ev : Event) : bool :=
  match ev with EvPost _ _ => true | _ => false end.

(* ================================================================= *)
(** ** Sample worlds *)

(** A one-dimensional embedding: the length of the text. *)
Definition embed_by_length (text : string) : Vector := [Z.of_nat (String.length text)].

(** Closer lengths score higher. *)
Definition closeness (q v : Vector) : Z :=
  match q, v with
  | [a], [b] => - Z.abs (a - b)
  | _, _ => 0
  end.

(** A remote service that answers with what it was sent. *)
Definition echo_response (body : json) : json :=
  JObj [("jsonrpc", JStr "2.0"); ("id", JInt 1); ("result", JObj [("echo", body)])].

(** Every collaborator answers. *)
Definition all_up : Env :=
  {| TextEmbedding_call := fun _ text =>
       Return {| status_code := 200; message := "OK";
                 output_embeddings := [embed_by_length text] |};
     insert_response := fun _ _ => Return true;
     query_response := fun _ _ _ => Return true;
     similarity := closeness;
     http_post := fun _ _ body => Return (Return (echo_response body));
     sse_client_aenter := fun _ _ => Return tt;
     ClientSession_aenter := fun _ => Return tt;
     session_initialize := fun _ => Return tt;
     session_call_tool := fun _ name _ =>
       Return (WithDict (JObj [("content", JStr name); ("isError", JBool false)]));
     resource_aexit := fun _ _ => Return false |}.

(** The embedding provider answers with a non-success status. *)
Definition embedding_down : Env :=
  {| TextEmbedding_call := fun _ _ =>
       Return {| status_code := 503; message := "Service Unavailable";
                 output_embeddings := [] |};
     insert_response := insert_response all_up;
     query_response := query_response all_up;
     similarity := similarity all_up;
     http_post := http_post all_up;
     sse_client_aenter := sse_client_aenter all_up;
     ClientSession_aenter := ClientSession_aenter all_up;
     session_initialize := session_initialize all_up;
     session_call_tool := session_call_tool all_up;
     resource_aexit := resource_aexit all_up |}.

(** The embedding provider answers the first call only. *)
Definition embedding_once : Env :=
  {| TextEmbedding_call := fun h text =>
       match h with
       | [] => TextEmbedding_call all_up h text
       | _ => Raise (Exception "Connection reset")
       end;
     insert_response := insert_response all_up;
     query_response := query_response all_up;
     similarity := similarity all_up;
     http_post := http_post all_up;
     sse_client_aenter := sse_client_aenter all_up;
     ClientSession_aenter := ClientSession_aenter all_up;
     session_initialize := session_initialize all_up;
     session_call_tool := session_call_tool all_up;
     resource_aexit := resource_aexit all_up |}.

(** The remote endpoint cannot be reached. *)
Definition unreachable : Env :=
  {| TextEmbedding_call := TextEmbedding_call all_up;
     insert_response := insert_response all_up;
     query_response := query_response all_up;
     similarity := similarity all_up;
     http_post := fun _ _ _ => Raise (Exception "All connection attempts failed");
     sse_client_aenter := fun _ _ => Raise (Exception "All connection attempts failed");
     ClientSession_aenter := ClientSession_aenter all_up;
     session_initialize := session_initialize all_up;
     session_call_tool := session_call_tool all_up;
     resource_aexit := resource_aexit all_up |}.

(** The stream opens, the session is entered, the handshake fails. *)
Definition handshake_fails : Env :=
  {| TextEmbedding_call := TextEmbedding_call all_up;
     insert_response := insert_response all_up;
     query_response := query_response all_up;
     similarity := similarity all_up;
     http_post := http_post all_up;
     sse_client_aenter := sse_client_aenter all_up;
     ClientSession_aenter := ClientSession_aenter all_up;
     session_initialize := fun _ => Raise (Exception "handshake failed");
     session_call_tool := session_call_tool all_up;
     resource_aexit := resource_aexit all_up |}.

(** The stream opens; the call is cancelled while the session is entered. *)
Definition cancelled_in_session : Env :=
  {| TextEmbedding_call := TextEmbedding_call all_up;
     insert_response := insert_response all_up;
     query_response := query_response all_up;
     similarity := similarity all_up;
     http_post := http_post all_up;
     sse_client_aenter := sse_client_aenter all_up;
     ClientSession_aenter := fun _ => Raise CancelledError;
     session_initialize := session_initialize all_up;
     session_call_tool := session_call_tool all_up;
     resource_aexit := resource_aexit all_up |}.

(** Nothing registered, nothing called yet. *)
Definition empty_world : World := {| collection := []; log := [] |}.

(** A registry with one service, whose endpoint is a streaming one. *)
Definition amap_world : World :=
  {| collection :=
       [{| doc_id := "amap"; doc_vector := [4];
           doc_fields := {| f_server_description := "maps";
                            f_server_endpoint := "https://mcp.amap.com/SSE?key=k";
                            f_tools := "[]" |} |}];
     log := [] |}.

(** A registry crowded with unrelated services. *)
Definition filler_name (i : nat) : string :=
  "filler-" +++ NilEmpty.string_of_uint (Nat.to_uint i).

(** [n] services registered through [add_server], every call answered. *)
Fixpoint register_fillers (n : nat) (w : World) : World :=
  match n with
  | O => w
  | S n' =>
      after (add_server all_up (filler_name n') EmptyString "http://filler/mcp" "[]")
        (register_fillers n' w)
  end.

Definition crowded : World := register_fillers 100 empty_world.

(* ================================================================= *)
(** ** DiscoveryService.__init__ *)

(** What [client.get] returns: an object with a truth value.  [handle_ref]
    tells one returned object from another. *)
Record CollectionHandle : Type := mkCollectionHandle {
  handle_truth : bool;
  handle_ref : nat
}.

(** The calls [__init__] makes to the DashVector client. *)
Inductive ClientCall : Type :=
| ClientGet (name : string)
| ClientCreate (name : string) (dimension : Z).

(** The DashVector client, as oracles over the calls made so far. *)
Record Client : Type := mkClient {
  (** [client.get(name)] *)
  client_get : list ClientCall -> string -> outcome CollectionHandle;
  (** truth value of the response of [client.create(name, dimension)] *)
  client_create : list ClientCall -> string -> Z -> outcome bool
}.

Definition client_call {A} (c : ClientCall) (oracle : list ClientCall -> outcome A)
  : M (list ClientCall) A :=
  fun calls => (oracle calls, calls ++ [c]).

Section Init.

Variable client : Client.

(** [COLLECTION_NAME] and [EMBEDDING_DIMENSION] of [config.py]. *)
Variable COLLECTION_NAME : string.
Variable EMBEDDING_DIMENSION : Z.

(** [DiscoveryService.__init__], from the [try]; the value is what is left in
    [self.collection]. *)
Definition DiscoveryService__init__ : M (list ClientCall) CollectionHandle :=
  try_except
    (client_call (ClientGet COLLECTION_NAME)
       (fun calls => client_get client calls COLLECTION_NAME))
    (fun _ =>
       rsp <- client_call (ClientCreate COLLECTION_NAME EMBEDDING_DIMENSION)
                (fun calls => client_create client calls COLLECTION_NAME EMBEDDING_DIMENSION) ;;
       if negb rsp then
         raise (Exception "Failed to create DashVector collection")
       else
         collection <- client_call (ClientGet COLLECTION_NAME)
                         (fun calls => client_get client calls COLLECTION_NAME) ;;
         if negb (handle_truth collection) then
           raise (Exception "Failed to get DashVector collection after creation")
         else
           ret collection).

End Init.

(** A client whose collection does not exist yet: the first lookup raises,
    the creation succeeds, the next lookup returns the collection. *)
Definition first_start : Client :=
  {| client_get := fun calls _ =>
       match calls with
       | [] => Raise (Exception "collection not found")
       | _ => Return {| handle_truth := true; handle_ref := 1 |}
       end;
     client_create := fun _ _ _ => Return true |}.

(** A client whose lookup returns, without raising, a falsy object. *)
Definition falsy_lookup : Client :=
  {| client_get := fun _ _ => Return {| handle_truth := false; handle_ref := 0 |};
     client_create := fun _ _ _ => Return true |}.

(** A client that can neither find nor create the collection. *)
Definition cannot_create : Client :=
  {| client_get := fun _ _ => Raise (Exception "collection not found");
     client_create := fun _ _ _ => Return false |}.

(* ================================================================= *)
(** ** The router over either discovery service *)

(** [MockDiscoveryService.get_server_endpoint] and
    [MockDiscoveryService.add_server], the stand-ins [mcp_router.py] installs
    when the import of [discovery_service] fails.  (The mock's
    [search_server] answers with the float score 0.95 and is left out.) *)
Definition MockDiscoveryService_get_server_endpoint (server_name : string)
  : M World string :=
  ret "http://example.com/mcp".

Definition MockDiscoveryService_add_server
    (server_name server_description server_endpoint tools : string) : M World json :=
  ret (JObj [("status", JStr "success");
             ("message", JStr ("Server '" +++ server_name +++ "' registered."))]).

Section RouterOver.

Variable env : Env.
Variable HAVE_SSE_SUPPORT : bool.

(** The methods of the module-level [discovery_service] the router calls. *)
Variable discovery_get_server_endpoint : string -> M World string.
Variable discovery_add_server : string -> string -> string -> string -> M World json.

(** [exec_mcp_tool], with [discovery_service] whichever it is. *)
Definition exec_mcp_tool_over (target_server_name target_tool_name : string)
    (parameters : json) : M World string :=
  try_except
    (target_endpoint <- discovery_get_server_endpoint target_server_name ;;
     if contains "sse" (lower target_endpoint) && HAVE_SSE_SUPPORT then
       _execute_sse_tool env target_endpoint target_tool_name parameters
     else
       _execute_http_tool env target_endpoint target_tool_name parameters)
    (fun msg => ret (error_payload msg)).

(** [add_mcp_server], with [discovery_service] whichever it is. *)
Definition add_mcp_server_over (server_name server_description server_endpoint : string)
    (tools : list json) : M World string :=
  try_except
    (let tools_json := json_dumps (JArr tools) in
     result <- discovery_add_server server_name server_description server_endpoint
                 tools_json ;;
     ret (json_dumps result))
    (fun msg => ret (error_payload msg)).

End RouterOver.

(* ================================================================= *)
(** ** Further observations and sample worlds *)

(** Is the call an embedding or a store query? *)
Definition is_probe_call (ev : Event) : bool :=
  match ev with
  | EvEmbed _ | EvQuery _ _ => true
  | _ => false
  end.

(** Is the call one of the streaming transport? *)
Definition is_stream_call (ev : Event) : bool :=
  match ev with
  | EvEnter _ _ | EvInitialize | EvCallTool _ _ | EvExit _ => true
  | _ => false
  end.


(** The vector store answers a write with a falsy response. *)
Definition store_refuses : Env :=
  {| TextEmbedding_call := TextEmbedding_call all_up;
     insert_response := fun _ _ => Return false;
     query_response := query_response all_up;
     similarity := similarity all_up;
     http_post := http_post all_up;
     sse_client_aenter := sse_client_aenter all_up;
     ClientSession_aenter := ClientSession_aenter all_up;
     session_initialize := session_initialize all_up;
     session_call_tool := session_call_tool all_up;
     resource_aexit := resource_aexit all_up |}.

(** The process is interrupted while the embedding provider is called: a
    [BaseException] that is no [Exception], for which [CancelledError] stands. *)
Definition interrupted_in_embedding : Env :=
  {| TextEmbedding_call := fun _ _ => Raise CancelledError;
     insert_response := insert_response all_up;
     query_response := query_response all_up;
     similarity := similarity all_up;
     http_post := http_post all_up;
     sse_client_aenter := sse_client_aenter all_up;
     ClientSession_aenter := ClientSession_aenter all_up;
     session_initialize := session_initialize all_up;
     session_call_tool := session_call_tool all_up;
     resource_aexit := resource_aexit all_up |}.

(** The vector store answers a query with a falsy response. *)
Definition query_refused : Env :=
  {| TextEmbedding_call := TextEmbedding_call all_up;
     insert_response := insert_response all_up;
     query_response := fun _ _ _ => Return false;
     similarity := similarity all_up;
     http_post := http_post all_up;
     sse_client_aenter := sse_client_aenter all_up;
     ClientSession_aenter := ClientSession_aenter all_up;
     session_initialize := session_initialize all_up;
     session_call_tool := session_call_tool all_up;
     resource_aexit := resource_aexit all_up |}.

(** Closing the stream raises. *)
Definition close_fails : Env :=
  {| TextEmbedding_call := TextEmbedding_call all_up;
     insert_response := insert_response all_up;
     query_response := query_response all_up;
     similarity := similarity all_up;
     http_post := http_post all_up;
     sse_client_aenter := sse_client_aenter all_up;
     ClientSession_aenter := ClientSession_aenter all_up;
     session_initialize := session_initialize all_up;
     session_call_tool := session_call_tool all_up;
     resource_aexit := fun _ r =>
       match r with
       | Stream => Raise (Exception "stream close failed")
       | Session => Return false
       end |}.

(** Every context manager asks, on exit, to suppress the exception. *)
Definition handshake_fails_suppressing : Env :=
  {| TextEmbedding_call := TextEmbedding_call all_up;
     insert_response := insert_response all_up;
     query_response := query_response all_up;
     similarity := similarity all_up;
     http_post := http_post all_up;
     sse_client_aenter := sse_client_aenter all_up;
     ClientSession_aenter := ClientSession_aenter all_up;
     session_initialize := fun _ => Raise (Exception "handshake failed");
     session_call_tool := session_call_tool all_up;
     resource_aexit := fun _ _ => Return true |}.


(* ================================================================= *)
(** * Properties *)

(** ** The monad *)

Lemma bind_Return {S A B} (m : M S A) (k : A -> M S B) s a s' :
  m s = (Return a, s') -> bind m k s = k a s'.
Proof. intros H. unfold bind. now rewrite H. Qed.

Lemma bind_Raise {S A B} (m : M S A) (k : A -> M S B) s e s' :
  m s = (Raise e, s') -> bind m k s = (Raise e, s').
Proof. intros H. unfold bind. now rewrite H. Qed.

Lemma try_except_Return {S A} (m : M S A) h s a s' :
  m s = (Return a, s') -> try_except m h s = (Return a, s').
Proof. intros H. unfold try_except. now rewrite H. Qed.

Lemma try_except_Exception {S A} (m : M S A) h s msg s' :
  m s = (Raise (Exception msg), s') -> try_except m h s = h msg s'.
Proof. intros H. unfold try_except. now rewrite H. Qed.


(** A handler that returns leaves no [Exception] to the caller. *)
Lemma try_except_total {S A} (m : M S A) (f : string -> A) s :
  (exists a s', try_except m (fun msg => ret (f msg)) s = (Return a, s')) \/
  (exists s', m s = (Raise CancelledError, s') /\
              try_except m (fun msg => ret (f msg)) s = (Raise CancelledError, s')).
Proof.
  unfold try_except, ret. destruct (m s) as [[a | [msg | ]] s'].
  - left. now exists a, s'.
  - left. now exists (f msg), s'.
  - right. now exists s'.
Qed.

(** ** The JSON codec *)

Lemma append_assoc (a b c : string) : (a +++ b) +++ c = a +++ b +++ c.
Proof. induction a as [ | x a IH]; simpl; [reflexivity | now rewrite IH]. Qed.

Lemma length_append (a b : string) :
  String.length (a +++ b) = (String.length a + String.length b)%nat.
Proof. induction a as [ | x a IH]; simpl; [reflexivity | now rewrite IH]. Qed.

(** *** Strings *)

(** Case analysis on the 256 values of a character. *)
Ltac each_char c :=
  let b0 := fresh in let b1 := fresh in let b2 := fresh in let b3 := fresh in
  let b4 := fresh in let b5 := fresh in let b6 := fresh in let b7 := fresh in
  destruct c as [b0 b1 b2 b3 b4 b5 b6 b7];
  destruct b0, b1, b2, b3, b4, b5, b6, b7.

(** An escaped character decodes to the character. *)
Lemma scanstring_escape_char c s :
  scanstring (escape_char c +++ s) = prepend (String c EmptyString) (scanstring s).
Proof. each_char c; reflexivity. Qed.

(** The escaped text of a string, then a quote, decodes to the string. *)
Lemma scanstring_escape s rest :
  scanstring (escape s +++ String dquote rest) = Some (s, rest).
Proof.
  induction s as [ | c s IH]; simpl; [reflexivity | ].
  rewrite append_assoc, scanstring_escape_char, IH. reflexivity.
Qed.

(** *** Numbers *)

Lemma delimited_no_digit rest : delimited rest = true -> span_digits rest = (EmptyString, rest).
Proof.
  destruct rest as [ | c rest]; [reflexivity | ]. simpl.
  each_char c; try discriminate; reflexivity.
Qed.

Lemma delimited_no_float rest : delimited rest = true -> float_follows rest = false.
Proof.
  destruct rest as [ | c rest]; [reflexivity | ]. simpl.
  each_char c; try discriminate; reflexivity.
Qed.

Lemma span_digits_uint u rest :
  delimited rest = true ->
  span_digits (NilEmpty.string_of_uint u +++ rest) = (NilEmpty.string_of_uint u, rest).
Proof.
  intros Hd. induction u; simpl; try (rewrite IHu; reflexivity).
  now apply delimited_no_digit.
Qed.

(** The decimal text of a positive number starts with a digit other than
    zero. *)
Lemma to_uint_head p :
  exists c s, NilEmpty.string_of_uint (Pos.to_uint p) = String c s /\
              is_digit c = true /\ Ascii.eqb c "0" = false.
Proof.
  pose proof (DecimalPos.Unsigned.to_uint_nonzero p) as Hz.
  pose proof (DecimalPos.Unsigned.to_uint_nonnil p) as Hn.
  assert (Hu : Decimal.unorm (Pos.to_uint p) = Pos.to_uint p).
  { rewrite <- DecimalPos.Unsigned.to_of, DecimalPos.Unsigned.of_to. reflexivity. }
  destruct (Pos.to_uint p) as [ | d | d | d | d | d | d | d | d | d | d ] eqn:E;
    try (eexists _, _; split; [reflexivity | split; reflexivity]).
  - now elim Hn.
  - exfalso. unfold Decimal.unorm in Hu.
    destruct (Decimal.nzhead (Decimal.D0 d)) eqn:Ez; try discriminate Hu.
    + now elim Hz.
    + now apply (nzhead_nonzero (Decimal.D0 d) u).
Qed.

Lemma scan_digits_pos p rest :
  delimited rest = true ->
  scan_digits (NilEmpty.string_of_uint (Pos.to_uint p) +++ rest) = Some (Z.pos p, rest).
Proof.
  intros Hd. destruct (to_uint_head p) as (c & s & E & Hc & H0).
  unfold scan_digits. rewrite span_digits_uint by assumption.
  assert (Hz : nextchar_is "0" (NilEmpty.string_of_uint (Pos.to_uint p) +++ rest) = false)
    by now rewrite E.
  rewrite Hz, NilEmpty.usu. rewrite E at 1. simpl.
  unfold Z.of_uint. now rewrite DecimalPos.Unsigned.of_to.
Qed.

(** The text of an integer, followed by a delimiter or by nothing, decodes
    to the integer. *)
Lemma scan_number_dumps_int n rest :
  delimited rest = true ->
  scan_number (dumps_int n +++ rest) = Some (JInt n, rest).
Proof.
  intros Hd. unfold scan_number, dumps_int. destruct n as [ | p | p]; simpl.
  - now rewrite delimited_no_float.
  - destruct (to_uint_head p) as (c & s & E & Hc & H0).
    assert (Hm : nextchar_is "-" (NilEmpty.string_of_uint (Pos.to_uint p) +++ rest) = false).
    { rewrite E. simpl. revert Hc. each_char c; try discriminate; reflexivity. }
    rewrite Hm, scan_digits_pos by assumption. now rewrite delimited_no_float.
  - rewrite scan_digits_pos by assumption. simpl. now rewrite delimited_no_float.
Qed.

(** *** The first character of a printed value *)

Lemma json_dumps_head v : exists c s, json_dumps v = String c s /\ value_start c = true.
Proof.
  destruct v as [ | [ | ] | [ | p | p] | s | [ | x l] | [ | [k x] m]];
    try (eexists _, _; split; reflexivity).
  destruct (to_uint_head p) as (c & s & E & Hc & _).
  exists c, s. split; [exact E | ]. unfold value_start. rewrite Hc.
  now rewrite !orb_true_r.
Qed.

Lemma value_start_not_ws c : value_start c = true -> is_ws c = false.
Proof. each_char c; try discriminate; reflexivity. Qed.

Lemma value_start_not_closing c :
  value_start c = true -> Ascii.eqb c "]" = false /\ Ascii.eqb c "}" = false.
Proof. each_char c; try discriminate; split; reflexivity. Qed.

Lemma skip_ws_dumps v s : skip_ws (json_dumps v +++ s) = json_dumps v +++ s.
Proof.
  destruct (json_dumps_head v) as (c & s' & -> & Hc). simpl.
  now rewrite (value_start_not_ws _ Hc).
Qed.

Lemma nextchar_dumps v s :
  nextchar_is "]" (json_dumps v +++ s) = false /\
  nextchar_is "}" (json_dumps v +++ s) = false.
Proof.
  destruct (json_dumps_head v) as (c & s' & -> & Hc). simpl.
  now apply value_start_not_closing.
Qed.

(** *** Dicts *)

(** Pairs with distinct keys build the dict that lists them in order. *)
Lemma dict_set_fresh k v d :
  existsb (String.eqb k) (map fst d) = false -> dict_set k v d = d ++ [(k, v)].
Proof.
  induction d as [ | [k' v'] d IH]; simpl; [reflexivity | ].
  intros H. apply orb_false_elim in H. destruct H as [Hk Hd].
  rewrite String.eqb_sym, Hk. now rewrite IH.
Qed.

Lemma distinct_keys_middle l k l' :
  distinct_keys (l ++ k :: l') = true -> existsb (String.eqb k) l = false.
Proof.
  induction l as [ | a l IH]; simpl; [reflexivity | ].
  intros H. apply andb_prop in H. destruct H as [Ha Hl].
  rewrite (IH Hl), orb_false_r. rewrite existsb_app in Ha. simpl in Ha.
  rewrite String.eqb_sym. destruct (String.eqb a k); [ | reflexivity].
  now rewrite !orb_true_r in Ha.
Qed.

Lemma fold_dict_set acc pairs :
  distinct_keys (map fst (acc ++ pairs)) = true ->
  fold_left (fun d kv => dict_set (fst kv) (snd kv) d) pairs acc = acc ++ pairs.
Proof.
  revert acc. induction pairs as [ | [k v] pairs IH]; intros acc H; simpl.
  - now rewrite List.app_nil_r.
  - rewrite dict_set_fresh.
    + rewrite IH; rewrite <- List.app_assoc; [reflexivity | exact H].
    + rewrite map_app in H. simpl in H. now apply distinct_keys_middle in H.
Qed.

Lemma dict_of_pairs_distinct pairs :
  distinct_keys (map fst pairs) = true -> dict_of_pairs pairs = pairs.
Proof. intros H. unfold dict_of_pairs. now rewrite fold_dict_set. Qed.

(** *** Values *)

Lemma json_dumps_JArr x l : json_dumps (JArr (x :: l)) = "[" +++ json_dumps x +++ items_tail l.
Proof. reflexivity. Qed.

Lemma json_dumps_JObj k x m :
  json_dumps (JObj ((k, x) :: m))
  = "{" +++ dumps_str k +++ ": " +++ json_dumps x +++ members_tail m.
Proof. reflexivity. Qed.

Lemma well_formed_JArr l : well_formed (JArr l) = all_well_formed l.
Proof. reflexivity. Qed.

Lemma well_formed_JObj m :
  well_formed (JObj m) = distinct_keys (map fst m) && all_members_well_formed m.
Proof. reflexivity. Qed.

(** Induction on a value, with the property known of the items of a list
    and of the values of a dict. *)
Lemma json_induction (P : json -> Prop) :
  P JNull -> (forall b, P (JBool b)) -> (forall n, P (JInt n)) -> (forall s, P (JStr s)) ->
  (forall l, Forall P l -> P (JArr l)) ->
  (forall m, Forall (fun kv => P (snd kv)) m -> P (JObj m)) ->
  forall v, P v.
Proof.
  intros Hnull Hbool Hint Hstr Harr Hobj.
  fix IH 1.
  intros [ | b | n | s | l | m];
    [apply Hnull | apply Hbool | apply Hint | apply Hstr | | ].
  - apply Harr. induction l as [ | x l IHl]; constructor; [apply IH | exact IHl].
  - apply Hobj. induction m as [ | [k x] m IHm]; constructor; [apply IH | exact IHm].
Qed.

(** One step of each of the three mutually recursive scanners. *)
Lemma scan_once_S fuel s :
  scan_once (S fuel) s =
    if nextchar_is dquote s then
      match scanstring (advance s) with
      | Some (str, rest) => Some (JStr str, rest)
      | None => None
      end
    else if nextchar_is "{" s then
      let s1 := skip_ws (advance s) in
      if nextchar_is "}" s1 then Some (JObj [], advance s1)
      else
        match scan_members fuel s1 with
        | Some (pairs, rest) => Some (JObj (dict_of_pairs pairs), rest)
        | None => None
        end
    else if nextchar_is "[" s then
      let s1 := skip_ws (advance s) in
      if nextchar_is "]" s1 then Some (JArr [], advance s1)
      else
        match scan_items fuel s1 with
        | Some (values, rest) => Some (JArr values, rest)
        | None => None
        end
    else
      match strip_prefix "null" s with
      | Some rest => Some (JNull, rest)
      | None =>
          match strip_prefix "true" s with
          | Some rest => Some (JBool true, rest)
          | None =>
              match strip_prefix "false" s with
              | Some rest => Some (JBool false, rest)
              | None => scan_number s
              end
          end
      end.
Proof. reflexivity. Qed.

Lemma scan_items_S fuel s :
  scan_items (S fuel) s =
    match scan_once fuel s with
    | Some (value, s1) =>
        let s2 := skip_ws s1 in
        if nextchar_is "]" s2 then Some ([value], advance s2)
        else if nextchar_is "," s2 then
          match scan_items fuel (skip_ws (advance s2)) with
          | Some (values, rest) => Some (value :: values, rest)
          | None => None
          end
        else None
    | None => None
    end.
Proof. reflexivity. Qed.

Lemma scan_members_S fuel s :
  scan_members (S fuel) s =
    if nextchar_is dquote s then
      match scanstring (advance s) with
      | Some (key, s1) =>
          let s2 := skip_ws s1 in
          if nextchar_is ":" s2 then
            match scan_once fuel (skip_ws (advance s2)) with
            | Some (value, s3) =>
                let s4 := skip_ws s3 in
                if nextchar_is "}" s4 then Some ([(key, value)], advance s4)
                else if nextchar_is "," s4 then
                  match scan_members fuel (skip_ws (advance s4)) with
                  | Some (pairs, rest) => Some ((key, value) :: pairs, rest)
                  | None => None
                  end
                else None
            | None => None
            end
          else None
      | None => None
      end
    else None.
Proof. reflexivity. Qed.

Lemma scan_once_number fuel c s :
  (is_digit c || Ascii.eqb c "-") = true ->
  scan_once (S fuel) (String c s) = scan_number (String c s).
Proof. each_char c; try discriminate; reflexivity. Qed.

Lemma delimited_items_tail l rest : delimited (items_tail l +++ rest) = true.
Proof. now destruct l. Qed.

Lemma delimited_members_tail m rest : delimited (members_tail m +++ rest) = true.
Proof. now destruct m as [ | [k x] m]. Qed.

Lemma length_items_tail l : (1 <= String.length (items_tail l))%nat.
Proof. destruct l; simpl; lia. Qed.

Lemma length_members_tail m : (1 <= String.length (members_tail m))%nat.
Proof. destruct m as [ | [k x] m]; simpl; lia. Qed.

(** The items of a list, from the first one to the closing bracket. *)
Lemma scan_items_dumps l :
  Forall decodes_back l ->
  forall x, decodes_back x ->
  forall fuel rest,
    (String.length (json_dumps x) + String.length (items_tail l) <= fuel)%nat ->
    delimited rest = true ->
    scan_items fuel (json_dumps x +++ items_tail l +++ rest) = Some (x :: l, rest).
Proof.
  induction 1 as [ | y l Hy Hl IH]; intros x Hx fuel rest Hfuel Hrest.
  - destruct fuel as [ | fuel]; [simpl in Hfuel; lia | ].
    rewrite scan_items_S, Hx; [reflexivity | simpl in Hfuel; lia | reflexivity].
  - pose proof (length_items_tail l) as Hlen.
    destruct fuel as [ | fuel]; [simpl in Hfuel; lia | ].
    simpl in Hfuel. rewrite length_append in Hfuel.
    rewrite scan_items_S, Hx; [ | lia | apply delimited_items_tail].
    simpl. rewrite append_assoc, skip_ws_dumps.
    rewrite IH; [reflexivity | exact Hy | lia | exact Hrest].
Qed.

Lemma length_dumps_str k : String.length (dumps_str k) = S (S (String.length (escape k))).
Proof. unfold dumps_str. simpl. rewrite length_append. simpl. lia. Qed.

Lemma nextchar_dumps_str k s : nextchar_is dquote (dumps_str k +++ s) = true.
Proof. reflexivity. Qed.

Lemma scanstring_dumps_str k s : scanstring (advance (dumps_str k +++ s)) = Some (k, s).
Proof.
  unfold dumps_str. simpl. rewrite append_assoc. simpl. apply scanstring_escape.
Qed.

Lemma skip_ws_dumps_str k s : skip_ws (dumps_str k +++ s) = dumps_str k +++ s.
Proof. reflexivity. Qed.

Lemma members_tail_cons k y m rest :
  members_tail ((k, y) :: m) +++ rest
  = ", " +++ dumps_str k +++ ": " +++ json_dumps y +++ members_tail m +++ rest.
Proof. cbn [members_tail]. now rewrite !append_assoc. Qed.

(** The members of a dict, from the first key to the closing brace. *)
Lemma scan_members_dumps m :
  Forall (fun kv => decodes_back (snd kv)) m ->
  forall k x, decodes_back x ->
  forall fuel rest,
    (String.length (json_dumps x) + String.length (members_tail m) <= fuel)%nat ->
    delimited rest = true ->
    scan_members fuel (dumps_str k +++ ": " +++ json_dumps x +++ members_tail m +++ rest)
    = Some ((k, x) :: m, rest).
Proof.
  induction 1 as [ | [k' y] m Hy Hm IH]; intros k x Hx fuel rest Hfuel Hrest.
  - destruct fuel as [ | fuel]; [simpl in Hfuel; lia | ].
    rewrite scan_members_S, nextchar_dumps_str, scanstring_dumps_str.
    simpl. rewrite skip_ws_dumps.
    rewrite Hx; [reflexivity | simpl in Hfuel; lia | reflexivity].
  - pose proof (length_members_tail m) as Hlen.
    destruct fuel as [ | fuel]; [simpl in Hfuel; lia | ].
    cbn [members_tail] in Hfuel. rewrite !length_append in Hfuel.
    rewrite length_dumps_str in Hfuel. simpl in Hfuel.
    rewrite scan_members_S, nextchar_dumps_str, scanstring_dumps_str.
    rewrite members_tail_cons.
    change (skip_ws (": " +++ json_dumps x +++ ", " +++ dumps_str k' +++ ": " +++
                     json_dumps y +++ members_tail m +++ rest))
      with (": " +++ json_dumps x +++ ", " +++ dumps_str k' +++ ": " +++
            json_dumps y +++ members_tail m +++ rest).
    cbv zeta.
    change (nextchar_is ":" (": " +++ json_dumps x +++ ", " +++ dumps_str k' +++ ": " +++
                             json_dumps y +++ members_tail m +++ rest)) with true.
    cbv iota.
    change (skip_ws (advance (": " +++ json_dumps x +++ ", " +++ dumps_str k' +++ ": " +++
                              json_dumps y +++ members_tail m +++ rest)))
      with (skip_ws (json_dumps x +++ ", " +++ dumps_str k' +++ ": " +++
                     json_dumps y +++ members_tail m +++ rest)).
    rewrite skip_ws_dumps, Hx; [ | lia | reflexivity].
    change (skip_ws (", " +++ dumps_str k' +++ ": " +++
                     json_dumps y +++ members_tail m +++ rest))
      with (", " +++ dumps_str k' +++ ": " +++ json_dumps y +++ members_tail m +++ rest).
    change (nextchar_is "}" (", " +++ dumps_str k' +++ ": " +++
                             json_dumps y +++ members_tail m +++ rest)) with false.
    change (nextchar_is "," (", " +++ dumps_str k' +++ ": " +++
                             json_dumps y +++ members_tail m +++ rest)) with true.
    cbv iota.
    change (skip_ws (advance (", " +++ dumps_str k' +++ ": " +++
                              json_dumps y +++ members_tail m +++ rest)))
      with (skip_ws (dumps_str k' +++ ": " +++ json_dumps y +++ members_tail m +++ rest)).
    rewrite skip_ws_dumps_str.
    rewrite IH; [reflexivity | exact Hy | lia | exact Hrest].
Qed.

Lemma Forall_well_formed (P : json -> Prop) l :
  Forall (fun v => well_formed v = true -> P v) l ->
  all_well_formed l = true -> Forall P l.
Proof.
  induction 1 as [ | x l Hx Hl IH]; simpl; intros H; constructor;
    apply andb_prop in H; destruct H; auto.
Qed.

Lemma Forall_members_well_formed (P : json -> Prop) m :
  Forall (fun kv : string * json => well_formed (snd kv) = true -> P (snd kv)) m ->
  all_members_well_formed m = true -> Forall (fun kv => P (snd kv)) m.
Proof.
  induction 1 as [ | [k x] m Hx Hm IH]; simpl; intros H; constructor;
    apply andb_prop in H; destruct H; auto.
Qed.

(** Every value Python can hold decodes back from its text. *)
Lemma scan_once_dumps v : well_formed v = true -> decodes_back v.
Proof.
  induction v as [ | b | n | s | l IH | m IH] using json_induction; intros Hwf fuel rest Hfuel Hrest.
  - destruct fuel; [simpl in Hfuel; lia | reflexivity].
  - destruct fuel; [destruct b; simpl in Hfuel; lia | now destruct b].
  - destruct (json_dumps_head (JInt n)) as (c & s & E & Hc).
    destruct fuel as [ | fuel]; [rewrite E in Hfuel; simpl in Hfuel; lia | ].
    assert (Hn : (is_digit c || Ascii.eqb c "-") = true).
    { destruct n as [ | p | p].
      - injection E as <- _. reflexivity.
      - simpl in E. destruct (to_uint_head p) as (c' & s' & E' & Hc' & _).
        unfold dumps_int in E. simpl in E. rewrite E' in E. injection E as <- _.
        now rewrite Hc'.
      - injection E as <- _. reflexivity. }
    rewrite E. change (String c s +++ rest) with (String c (s +++ rest)).
    rewrite scan_once_number by exact Hn.
    change (String c (s +++ rest)) with (String c s +++ rest). rewrite <- E.
    now apply scan_number_dumps_int.
  - destruct fuel; [simpl in Hfuel; lia | ].
    rewrite scan_once_S. change (json_dumps (JStr s)) with (dumps_str s).
    now rewrite nextchar_dumps_str, scanstring_dumps_str.
  - rewrite well_formed_JArr in Hwf.
    pose proof (Forall_well_formed _ _ IH Hwf) as Hl.
    destruct fuel as [ | fuel]; [destruct l; simpl in Hfuel; lia | ].
    destruct l as [ | x l]; [reflexivity | ].
    inversion Hl as [ | ? ? Hx Hl']; subst.
    rewrite json_dumps_JArr in *. rewrite scan_once_S. simpl.
    simpl in Hfuel. rewrite length_append in Hfuel.
    rewrite append_assoc, skip_ws_dumps.
    rewrite (proj1 (nextchar_dumps x _)).
    rewrite scan_items_dumps; [reflexivity | exact Hl' | exact Hx | lia | exact Hrest].
  - rewrite well_formed_JObj in Hwf. apply andb_prop in Hwf. destruct Hwf as [Hkeys Hwf].
    pose proof (Forall_members_well_formed _ _ IH Hwf) as Hm.
    destruct fuel as [ | fuel]; [destruct m as [ | [k x] m]; simpl in Hfuel; lia | ].
    destruct m as [ | [k x] m]; [reflexivity | ].
    inversion Hm as [ | ? ? Hx Hm']; subst. simpl in Hx.
    rewrite json_dumps_JObj in *. rewrite scan_once_S.
    change (nextchar_is dquote (("{" +++ dumps_str k +++ ": " +++ json_dumps x +++ members_tail m) +++ rest)) with false.
    change (nextchar_is "{" (("{" +++ dumps_str k +++ ": " +++ json_dumps x +++ members_tail m) +++ rest)) with true.
    cbv iota.
    change (advance (("{" +++ dumps_str k +++ ": " +++ json_dumps x +++ members_tail m) +++ rest))
      with ((dumps_str k +++ ": " +++ json_dumps x +++ members_tail m) +++ rest).
    rewrite !append_assoc.
    change (skip_ws (dumps_str k +++ ": " +++ json_dumps x +++ members_tail m +++ rest))
      with (dumps_str k +++ ": " +++ json_dumps x +++ members_tail m +++ rest).
    cbv zeta.
    change (nextchar_is "}" (dumps_str k +++ ": " +++ json_dumps x +++ members_tail m +++ rest))
      with false.
    cbv iota.
    simpl in Hfuel. rewrite !length_append in Hfuel. simpl in Hfuel.
    rewrite length_append in Hfuel.
    rewrite scan_members_dumps; [ | exact Hm' | exact Hx | lia | exact Hrest].
    now rewrite dict_of_pairs_distinct.
Qed.

Lemma append_empty (s : string) : s +++ EmptyString = s.
Proof. induction s as [ | c s IH]; simpl; [reflexivity | now rewrite IH]. Qed.

(** [json.loads(json.dumps(v))] is [v]. *)
Lemma json_loads_dumps v : well_formed v = true -> json_loads (json_dumps v) = Return v.
Proof.
  intros Hwf.
  pose proof (scan_once_dumps v Hwf (S (String.length (json_dumps v))) EmptyString
                ltac:(lia) eq_refl) as H.
  pose proof (skip_ws_dumps v EmptyString) as Hs.
  rewrite append_empty in H, Hs.
  unfold json_loads. now rewrite Hs, H.
Qed.

(** ** The registry *)

Section RegistryFacts.

Variable env : Env.

(** The embedding call is always logged, whatever it answers. *)
Lemma _generate_embedding_log text w :
  log (after (_generate_embedding env text) w) = log w ++ [EvEmbed text].
Proof.
  unfold after, _generate_embedding, bind, external, raise, ret.
  destruct (TextEmbedding_call env (log w) text) as [rsp | e]; simpl; [ | reflexivity].
  destruct (negb (status_code rsp =? 200)); simpl; [reflexivity | ].
  now destruct (output_embeddings rsp).
Qed.

Lemma _generate_embedding_collection text w :
  collection (after (_generate_embedding env text) w) = collection w.
Proof.
  unfold after, _generate_embedding, bind, external, raise, ret.
  destruct (TextEmbedding_call env (log w) text) as [rsp | e]; simpl; [ | reflexivity].
  destruct (negb (status_code rsp =? 200)); simpl; [reflexivity | ].
  now destruct (output_embeddings rsp).
Qed.

(** What [search_server] does once the query text is embedded: the store is
    queried with [top_k] as given, and the store's answer decides the rest. *)
Lemma search_server_embedded query top_k w v w1 :
  _generate_embedding env query w = (Return v, w1) ->
  search_server env query top_k w =
    (match query_response env (log w1) v top_k with
     | Return true =>
         Return (map result_of_doc (nearest (similarity env) v top_k (collection w1)))
     | Return false => Raise (Exception "Failed to query DashVector")
     | Raise e => Raise e
     end,
     record_event (EvQuery v top_k) w1).
Proof.
  intros H. unfold search_server. rewrite (bind_Return _ _ _ _ _ H).
  unfold bind, collection_query, ret, raise.
  destruct (query_response env (log w1) v top_k) as [[ | ] | e]; reflexivity.
Qed.

Lemma search_server_not_embedded query top_k w e w1 :
  _generate_embedding env query w = (Raise e, w1) ->
  search_server env query top_k w = (Raise e, w1).
Proof. intros H. unfold search_server. now rewrite (bind_Raise _ _ _ _ _ H). Qed.

(** The calls a probe makes: the embedding, then at most one store query. *)
Lemma search_server_log query top_k w :
  log (after (search_server env query top_k) w) = log w ++ [EvEmbed query] \/
  exists v, log (after (search_server env query top_k) w)
            = log w ++ [EvEmbed query; EvQuery v top_k].
Proof.
  pose proof (_generate_embedding_log query w) as Hlog. unfold after in *.
  destruct (_generate_embedding env query w) as [[v | e] w1] eqn:He.
  - right. exists v. rewrite (search_server_embedded _ _ _ _ _ He). simpl in *.
    rewrite Hlog, <- app_assoc. reflexivity.
  - left. rewrite (search_server_not_embedded _ _ _ _ _ He). exact Hlog.
Qed.

Lemma search_server_Return_log query top_k w rs w1 :
  search_server env query top_k w = (Return rs, w1) ->
  exists v, log w1 = log w ++ [EvEmbed query; EvQuery v top_k].
Proof.
  intros H. pose proof (_generate_embedding_log query w) as Hlog. unfold after in *.
  destruct (_generate_embedding env query w) as [[v | e] w0] eqn:He.
  - rewrite (search_server_embedded _ _ _ _ _ He) in H. exists v.
    injection H as _ <-. simpl in *. rewrite Hlog, <- app_assoc. reflexivity.
  - rewrite (search_server_not_embedded _ _ _ _ _ He) in H. discriminate.
Qed.

Lemma search_server_collection query top_k w :
  collection (after (search_server env query top_k) w) = collection w.
Proof.
  pose proof (_generate_embedding_collection query w) as Hc. unfold after in *.
  destruct (_generate_embedding env query w) as [[v | e] w1] eqn:He.
  - rewrite (search_server_embedded _ _ _ _ _ He). exact Hc.
  - rewrite (search_server_not_embedded _ _ _ _ _ He). exact Hc.
Qed.

(** *** The store's ranking *)

Lemma insert_ranked_perm x l : Permutation (insert_ranked x l) (x :: l).
Proof.
  induction l as [ | y l IH]; simpl; [reflexivity | ].
  destruct (sd_score y <=? sd_score x); [reflexivity | ].
  rewrite IH. apply perm_swap.
Qed.

Lemma rank_perm l : Permutation (rank l) l.
Proof.
  induction l as [ | x l IH]; simpl; [reflexivity | ].
  rewrite insert_ranked_perm. now constructor.
Qed.

Lemma firstn_In {A} n (l : list A) x : In x (firstn n l) -> In x l.
Proof.
  revert l. induction n as [ | n IH]; intros [ | y l]; simpl; try tauto.
  intros [-> | H]; auto.
Qed.

(** A query returns stored records only. *)
Lemma nearest_stored sim q topk c sd :
  In sd (nearest sim q topk c) -> exists d, In d c /\ sd = score_doc sim q d.
Proof.
  unfold nearest. intros H. apply firstn_In in H.
  apply (Permutation_in _ (rank_perm _)) in H.
  apply in_map_iff in H. destruct H as (d & <- & Hd). now exists d.
Qed.

(** A query for at least as many records as are stored returns them all. *)
Lemma nearest_all sim q topk c d :
  (Z.of_nat (List.length c) <= topk)%Z -> In d c ->
  In (score_doc sim q d) (nearest sim q topk c).
Proof.
  intros Hk Hd. unfold nearest.
  rewrite firstn_all2.
  - apply (Permutation_in _ (Permutation_sym (rank_perm _))). now apply in_map.
  - rewrite (Permutation_length (rank_perm _)), length_map. lia.
Qed.

(** *** The exact-match loop *)

Lemma find_exact_None name rs :
  find_exact name rs = None <-> (forall r, In r rs -> server_name r <> name).
Proof.
  induction rs as [ | r rs IH]; simpl.
  - split; [intros _ r [] | reflexivity].
  - destruct (String.eqb_spec (server_name r) name) as [E | E].
    + split; [discriminate | ]. intros H. exfalso. apply (H r); auto.
    + rewrite IH. split.
      * intros H r' [<- | Hr']; auto.
      * intros H r' Hr'. apply H. now right.
Qed.

Lemma find_exact_Some name rs endpoint :
  find_exact name rs = Some endpoint ->
  exists r, In r rs /\ server_name r = name /\ server_endpoint r = endpoint.
Proof.
  induction rs as [ | r rs IH]; simpl; [discriminate | ].
  destruct (String.eqb_spec (server_name r) name) as [E | E].
  - intros [= <-]. exists r. auto.
  - intros H. destruct (IH H) as (r' & Hr' & Hn & He). exists r'. auto.
Qed.

(** Any exact match makes the loop return. *)
Lemma find_exact_In name rs r :
  In r rs -> server_name r = name -> exists endpoint, find_exact name rs = Some endpoint.
Proof.
  intros Hin Hn. destruct (find_exact name rs) as [endpoint | ] eqn:E.
  - now exists endpoint.
  - exfalso. rewrite find_exact_None in E. now apply (E r).
Qed.

(** The results of a probe that returns come from the collection. *)
Lemma search_server_stored query top_k w rs w1 r :
  search_server env query top_k w = (Return rs, w1) -> In r rs ->
  exists d, In d (collection w) /\ server_name r = doc_id d /\
            server_description r = f_server_description (doc_fields d) /\
            server_endpoint r = f_server_endpoint (doc_fields d) /\
            tools r = f_tools (doc_fields d).
Proof.
  intros H Hr. pose proof (_generate_embedding_collection query w) as Hc.
  unfold after in Hc.
  destruct (_generate_embedding env query w) as [[v | e] w0] eqn:He.
  - rewrite (search_server_embedded _ _ _ _ _ He) in H. simpl in Hc.
    destruct (query_response env (log w0) v top_k) as [[ | ] | e]; try discriminate.
    injection H as <- _. apply in_map_iff in Hr. destruct Hr as (sd & <- & Hsd).
    apply nearest_stored in Hsd. destruct Hsd as (d & Hd & ->).
    exists d. rewrite <- Hc. simpl. auto.
  - rewrite (search_server_not_embedded _ _ _ _ _ He) in H. discriminate.
Qed.


(** *** The paths through [get_server_endpoint] *)

Lemma get_server_endpoint_narrow_hit name w rs w1 endpoint :
  search_server env name 20 w = (Return rs, w1) ->
  find_exact name rs = Some endpoint ->
  get_server_endpoint env name w = (Return endpoint, w1).
Proof.
  intros H Hf. unfold get_server_endpoint.
  rewrite (bind_Return _ _ _ (Some endpoint) w1); [reflexivity | ].
  apply try_except_Return. now rewrite (bind_Return _ _ _ _ _ H), Hf.
Qed.

Lemma get_server_endpoint_broad name w rs1 w1 rs2 w2 :
  search_server env name 20 w = (Return rs1, w1) ->
  find_exact name rs1 = None ->
  search_server env "" 100 w1 = (Return rs2, w2) ->
  get_server_endpoint env name w =
    (match find_exact name rs2 with
     | Some endpoint => Return endpoint
     | None => Raise (not_found name)
     end, w2).
Proof.
  intros H1 Hf H2. unfold get_server_endpoint.
  rewrite (bind_Return _ _ _ (find_exact name rs2) w2).
  - now destruct (find_exact name rs2).
  - apply try_except_Return.
    now rewrite (bind_Return _ _ _ _ _ H1), Hf, (bind_Return _ _ _ _ _ H2).
Qed.

Lemma get_server_endpoint_narrow_raises name w msg w1 :
  search_server env name 20 w = (Raise (Exception msg), w1) ->
  get_server_endpoint env name w = (Raise (not_found name), w1).
Proof.
  intros H. unfold get_server_endpoint.
  rewrite (bind_Return _ _ _ None w1); [reflexivity | ].
  rewrite (try_except_Exception _ _ _ msg w1); [reflexivity | ].
  now rewrite (bind_Raise _ _ _ _ _ H).
Qed.

Lemma get_server_endpoint_broad_raises name w rs1 w1 msg w2 :
  search_server env name 20 w = (Return rs1, w1) ->
  find_exact name rs1 = None ->
  search_server env "" 100 w1 = (Raise (Exception msg), w2) ->
  get_server_endpoint env name w = (Raise (not_found name), w2).
Proof.
  intros H1 Hf H2. unfold get_server_endpoint.
  rewrite (bind_Return _ _ _ None w2); [reflexivity | ].
  rewrite (try_except_Exception _ _ _ msg w2); [reflexivity | ].
  now rewrite (bind_Return _ _ _ _ _ H1), Hf, (bind_Raise _ _ _ _ _ H2).
Qed.

End RegistryFacts.

(** ** Endpoint resolution *)

(** C10.  In [get_server_endpoint] an [Exception] raised by a probe is
    swallowed and the call fails with "Server '...' not found" instead.  When
    the narrow probe raises, the call ends in the world the probe left: the
    only calls made are the probe's own embedding and, at most, its query
    with top-k 20, so the broad probe is never attempted.  When the narrow
    probe finds no match and the broad probe raises, the outcome is the same
    not-found error. *)
Theorem get_server_endpoint_swallows_probe_failure env name w :
  (forall msg w1,
      search_server env name 20 w = (Raise (Exception msg), w1) ->
      get_server_endpoint env name w
        = (Raise (Exception ("Server '" +++ name +++ "' not found")), w1) /\
      (log w1 = log w ++ [EvEmbed name] \/
       exists v, log w1 = log w ++ [EvEmbed name; EvQuery v 20])) /\
  (forall rs w1 msg w2,
      search_server env name 20 w = (Return rs, w1) ->
      find_exact name rs = None ->
      search_server env "" 100 w1 = (Raise (Exception msg), w2) ->
      get_server_endpoint env name w
        = (Raise (Exception ("Server '" +++ name +++ "' not found")), w2)).
Proof.
  split.
  - intros msg w1 H. split.
    + now apply get_server_endpoint_narrow_raises with msg.
    + pose proof (search_server_log env name 20 w) as Hlog.
      unfold after in Hlog. now rewrite H in Hlog.
  - intros rs w1 msg w2 H1 Hf H2.
    now apply get_server_endpoint_broad_raises with rs w1 msg.
Qed.

Lemma get_server_endpoint_swallows_probe_failure_witness :
  (search_server embedding_down "svc-a" 20 empty_world
     = (Raise (Exception "Failed to generate embedding: Service Unavailable"),
        {| collection := []; log := [EvEmbed "svc-a"] |}) /\
   get_server_endpoint embedding_down "svc-a" empty_world
     = (Raise (Exception "Server 'svc-a' not found"),
        {| collection := []; log := [EvEmbed "svc-a"] |})) /\
  (search_server embedding_once EmptyString 100
     {| collection := []; log := [EvEmbed "svc-a"; EvQuery [5] 20] |}
     = (Raise (Exception "Connection reset"),
        {| collection := [];
           log := [EvEmbed "svc-a"; EvQuery [5] 20; EvEmbed EmptyString] |}) /\
   get_server_endpoint embedding_once "svc-a" empty_world
     = (Raise (Exception "Server 'svc-a' not found"),
        {| collection := [];
           log := [EvEmbed "svc-a"; EvQuery [5] 20; EvEmbed EmptyString] |})).
Proof.
  split; (split; [reflexivity | ]).
  - exact (proj1 (proj1 (get_server_endpoint_swallows_probe_failure
                           embedding_down "svc-a" empty_world)
                    _ _ eq_refl)).
  - exact (proj2 (get_server_endpoint_swallows_probe_failure
                    embedding_once "svc-a" empty_world)
             [] {| collection := []; log := [EvEmbed "svc-a"; EvQuery [5] 20] |}
             "Connection reset" _ eq_refl eq_refl eq_refl).
Defined.




(** ** Similarity search *)

(** C7, as the code has it.  [search_server] does not look at [top_k]: for
    every value of it, positive or not, once the query text is embedded the
    store is queried with that very [top_k], and whether the call then fails
    is the store's answer alone: a truthy response makes it return the
    store's results. *)
Theorem search_server_forwards_top_k env query top_k w v w1 :
  _generate_embedding env query w = (Return v, w1) ->
  log (after (search_server env query top_k) w)
    = log w ++ [EvEmbed query; EvQuery v top_k] /\
  (query_response env (log w1) v top_k = Return true ->
   outcome_of (search_server env query top_k) w
     = Return (map result_of_doc (nearest (similarity env) v top_k (collection w)))).
Proof.
  intros He. unfold after, outcome_of.
  rewrite (search_server_embedded _ _ _ _ _ _ He). simpl.
  pose proof (_generate_embedding_log env query w) as Hl.
  pose proof (_generate_embedding_collection env query w) as Hc.
  unfold after in Hl, Hc. rewrite He in Hl, Hc. simpl in Hl, Hc.
  split.
  - rewrite Hl, <- app_assoc. reflexivity.
  - intros ->. now rewrite Hc.
Qed.

Lemma search_server_forwards_top_k_witness :
  _generate_embedding all_up "weather" empty_world
    = (Return [7], {| collection := []; log := [EvEmbed "weather"] |}) /\
  log (after (search_server all_up "weather" (-3)) empty_world)
    = [EvEmbed "weather"; EvQuery [7] (-3)] /\
  outcome_of (search_server all_up "weather" (-3)) empty_world = Return [].
Proof.
  split; [reflexivity | ].
  destruct (search_server_forwards_top_k all_up "weather" (-3) empty_world [7] _ eq_refl)
    as [Hlog Hout].
  split; [exact Hlog | exact (Hout eq_refl)].
Defined.

(** C7, as stated, fails: with top-k 0 nothing is rejected before the store
    is queried.  The query goes out to the store with top-k 0, whatever the
    store then answers; and with a store that answers, the call returns (an
    empty list) instead of failing. *)
Lemma search_server_top_k_zero_queries_store :
  search_server all_up "weather" 0 empty_world
    = (Return [], {| collection := []; log := [EvEmbed "weather"; EvQuery [7] 0] |}) /\
  ~ (forall env query top_k w,
        top_k <= 0 ->
        forall v, ~ In (EvQuery v top_k) (log (after (search_server env query top_k) w))).
Proof.
  split; [reflexivity | ].
  intros H. apply (H all_up "weather" 0 empty_world ltac:(lia) [7]).
  right. now left.
Qed.

(** ** The transports *)

(** Case analysis on what the oracles answer, one call after the other. *)
Ltac answer :=
  match goal with
  | |- context [match ?o with Return _ => _ | Raise _ => _ end] =>
      let a := fresh "a" in
      let msg := fresh "msg" in
      destruct o as [a | [msg | ]] eqn:?; try destruct a; simpl
  end.

(** The streaming transport, down to the oracles. *)
Ltac unfold_sse :=
  unfold after, outcome_of, _execute_sse_tool, with_local, try_finally, bind,
    enter_async_context, lift, external, aclose, ret, record_event; simpl.

Section RouterFacts.

Variable env : Env.
Variable HAVE_SSE_SUPPORT : bool.

(** The calls of the streaming transport, whatever each of them answers:
    resources are released in reverse order of acquisition, after the last
    acquisition; the first call enters the stream; nothing is posted. *)
Lemma _execute_sse_tool_events endpoint tool_name parameters w :
  exists evs,
    log (after (_execute_sse_tool env endpoint tool_name parameters) w) = log w ++ evs /\
    releases evs = rev (acquisitions evs) /\
    releases_last evs = true /\
    (exists acquired evs', evs = EvEnter Stream acquired :: evs') /\
    existsb is_post evs = false.
Proof.
  unfold_sse. repeat answer;
    rewrite <- ?app_assoc; simpl;
    (eexists; split; [reflexivity | ]);
    repeat split; eexists _, _; reflexivity.
Qed.

(** The request/response transport in one equation. *)
Lemma _execute_http_tool_run endpoint tool_name parameters w :
  _execute_http_tool env endpoint tool_name parameters w =
    (match http_post env (log w) endpoint (json_rpc_request tool_name parameters) with
     | Return (Return response_data) => Return (json_dumps response_data)
     | Return (Raise e) => Raise e
     | Raise e => Raise e
     end,
     record_event (EvPost endpoint (json_rpc_request tool_name parameters)) w).
Proof.
  unfold _execute_http_tool, bind, external, ret.
  now destruct (http_post env (log w) endpoint (json_rpc_request tool_name parameters))
    as [[response_data | e] | e].
Qed.

(** A handler that only returns a value leaves the world as the body did. *)
Lemma try_except_after {A} (m : M World A) (f : string -> A) w :
  after (try_except m (fun msg => ret (f msg))) w = after m w.
Proof.
  unfold after, try_except, ret. now destruct (m w) as [[a | [msg | ]] w'].
Qed.

(** The body of [exec_mcp_tool] after the resolution of the endpoint. *)
Lemma dispatch_resolved name tool_name parameters w endpoint w1 :
  get_server_endpoint env name w = (Return endpoint, w1) ->
  dispatch env HAVE_SSE_SUPPORT name tool_name parameters w =
    (if sse_marker endpoint && HAVE_SSE_SUPPORT
     then _execute_sse_tool env endpoint tool_name parameters
     else _execute_http_tool env endpoint tool_name parameters) w1.
Proof. intros H. unfold dispatch. now rewrite (bind_Return _ _ _ _ _ H). Qed.

Lemma dispatch_unresolved name tool_name parameters w e w1 :
  get_server_endpoint env name w = (Raise e, w1) ->
  dispatch env HAVE_SSE_SUPPORT name tool_name parameters w = (Raise e, w1).
Proof. intros H. unfold dispatch. now rewrite (bind_Raise _ _ _ _ _ H). Qed.

End RouterFacts.

(** C8.  [_execute_http_tool] makes exactly one call to the outside: one
    POST to [endpoint] whose body is the envelope with ["jsonrpc": "2.0"],
    ["method": "tools/call"], ["params": {"name": tool_name, "arguments":
    parameters}] and the fixed ["id": 1].  When the response decodes, the
    decoded body is what comes back, whatever fields it has: the returned
    text is its serialization, which decodes to that very body again. *)
Theorem http_tool_sends_one_request env endpoint tool_name parameters w :
  let request :=
    JObj [("jsonrpc", JStr "2.0");
          ("method", JStr "tools/call");
          ("params", JObj [("name", JStr tool_name); ("arguments", parameters)]);
          ("id", JInt 1)] in
  log (after (_execute_http_tool env endpoint tool_name parameters) w)
    = log w ++ [EvPost endpoint request] /\
  collection (after (_execute_http_tool env endpoint tool_name parameters) w)
    = collection w /\
  forall response_data,
    http_post env (log w) endpoint request = Return (Return response_data) ->
    outcome_of (_execute_http_tool env endpoint tool_name parameters) w
      = Return (json_dumps response_data) /\
    (well_formed response_data = true ->
     json_loads (json_dumps response_data) = Return response_data).
Proof.
  intros request. unfold after, outcome_of. rewrite _execute_http_tool_run.
  change (json_rpc_request tool_name parameters) with request.
  split; [reflexivity | split; [reflexivity | ]].
  intros response_data H. cbn [fst]. rewrite H.
  split; [reflexivity | apply json_loads_dumps].
Qed.

Lemma http_tool_sends_one_request_witness :
  let request :=
    JObj [("jsonrpc", JStr "2.0");
          ("method", JStr "tools/call");
          ("params", JObj [("name", JStr "getWeather");
                           ("arguments", JObj [("city", JStr "Paris")])]);
          ("id", JInt 1)] in
  http_post all_up [] "http://svc-a/mcp" request = Return (Return (echo_response request)) /\
  well_formed (echo_response request) = true /\
  outcome_of (_execute_http_tool all_up "http://svc-a/mcp" "getWeather"
                (JObj [("city", JStr "Paris")])) empty_world
    = Return (json_dumps (echo_response request)) /\
  json_loads (json_dumps (echo_response request)) = Return (echo_response request).
Proof.
  intros request. split; [reflexivity | split; [reflexivity | ]].
  destruct (proj2 (proj2 (http_tool_sends_one_request all_up "http://svc-a/mcp"
                            "getWeather" (JObj [("city", JStr "Paris")]) empty_world))
              _ eq_refl) as [Hout Hdec].
  split; [exact Hout | exact (Hdec eq_refl)].
Defined.

(** ** The dispatcher *)

(** C6.  Once the endpoint is resolved, [exec_mcp_tool] runs the streaming
    transport exactly when the lower-cased endpoint contains the marker
    [sse] and the SSE components were imported; in every other case (no
    marker, or no SSE support) it runs the request/response transport.  The
    calls made show it: the streaming transport starts by entering the
    stream and never posts; the request/response transport makes its one
    POST and nothing else. *)
Theorem exec_mcp_tool_selects_transport env HAVE_SSE_SUPPORT name tool_name parameters
    w endpoint w1 :
  get_server_endpoint env name w = (Return endpoint, w1) ->
  (contains "sse" (lower endpoint) = true /\ HAVE_SSE_SUPPORT = true ->
   exec_mcp_tool env HAVE_SSE_SUPPORT name tool_name parameters w
     = try_except (_execute_sse_tool env endpoint tool_name parameters)
         (fun msg => ret (json_dumps (JObj [("error", JStr msg)]))) w1 /\
   exists acquired evs,
     log (after (exec_mcp_tool env HAVE_SSE_SUPPORT name tool_name parameters) w)
       = log w1 ++ EvEnter Stream acquired :: evs /\
     existsb is_post evs = false) /\
  (contains "sse" (lower endpoint) = false \/ HAVE_SSE_SUPPORT = false ->
   exec_mcp_tool env HAVE_SSE_SUPPORT name tool_name parameters w
     = try_except (_execute_http_tool env endpoint tool_name parameters)
         (fun msg => ret (json_dumps (JObj [("error", JStr msg)]))) w1 /\
   log (after (exec_mcp_tool env HAVE_SSE_SUPPORT name tool_name parameters) w)
     = log w1 ++ [EvPost endpoint (json_rpc_request tool_name parameters)]).
Proof.
  intros H.
  assert (E : exec_mcp_tool env HAVE_SSE_SUPPORT name tool_name parameters w
              = try_except
                  (if sse_marker endpoint && HAVE_SSE_SUPPORT
                   then _execute_sse_tool env endpoint tool_name parameters
                   else _execute_http_tool env endpoint tool_name parameters)
                  (fun msg => ret (error_payload msg)) w1).
  { unfold exec_mcp_tool, try_except.
    now rewrite (dispatch_resolved _ _ _ _ _ _ _ _ H). }
  assert (A : after (exec_mcp_tool env HAVE_SSE_SUPPORT name tool_name parameters) w
              = after (if sse_marker endpoint && HAVE_SSE_SUPPORT
                       then _execute_sse_tool env endpoint tool_name parameters
                       else _execute_http_tool env endpoint tool_name parameters) w1).
  { unfold after at 1. rewrite E. apply (try_except_after _ error_payload). }
  unfold sse_marker in E, A. split.
  - intros [Hm ->]. rewrite Hm in E, A. split; [exact E | ].
    destruct (_execute_sse_tool_events env endpoint tool_name parameters w1)
      as (evs & Hlog & _ & _ & (acquired & evs' & ->) & Hpost).
    exists acquired, evs'. rewrite A. split; [exact Hlog | exact Hpost].
  - intros Hno.
    assert (Hsel : contains "sse" (lower endpoint) && HAVE_SSE_SUPPORT = false)
      by (destruct Hno as [Hno | Hno]; rewrite Hno; [reflexivity | apply andb_false_r]).
    rewrite Hsel in E, A. split; [exact E | ].
    rewrite A. unfold after. now rewrite _execute_http_tool_run.
Qed.

Lemma exec_mcp_tool_selects_transport_witness :
  let w1 := {| collection := collection amap_world;
               log := [EvEmbed "amap"; EvQuery [4] 20] |} in
  get_server_endpoint all_up "amap" amap_world
    = (Return "https://mcp.amap.com/SSE?key=k", w1) /\
  contains "sse" (lower "https://mcp.amap.com/SSE?key=k") = true /\
  exec_mcp_tool all_up true "amap" "geo" (JObj []) amap_world
    = try_except (_execute_sse_tool all_up "https://mcp.amap.com/SSE?key=k" "geo" (JObj []))
        (fun msg => ret (json_dumps (JObj [("error", JStr msg)]))) w1 /\
  log (after (exec_mcp_tool all_up false "amap" "geo" (JObj [])) amap_world)
    = [EvEmbed "amap"; EvQuery [4] 20;
       EvPost "https://mcp.amap.com/SSE?key=k" (json_rpc_request "geo" (JObj []))].
Proof.
  intros w1. split; [reflexivity | split; [reflexivity | split]].
  - exact (proj1 (proj1 (exec_mcp_tool_selects_transport all_up true "amap" "geo" (JObj [])
                           amap_world "https://mcp.amap.com/SSE?key=k" w1 eq_refl)
                    (conj eq_refl eq_refl))).
  - exact (proj2 (proj2 (exec_mcp_tool_selects_transport all_up false "amap" "geo" (JObj [])
                           amap_world "https://mcp.amap.com/SSE?key=k" w1 eq_refl)
                    (or_intror eq_refl))).
Defined.

(** C1.  [exec_mcp_tool] never raises an [Exception] to its caller.  Whatever
    [Exception] the body of its [try] raises (while resolving the endpoint,
    choosing the transport or running it) comes back as the returned text
    [{"error": message}], which decodes to that one-field object; a value the
    body returns is returned as it is.  Step by step: a failed resolution,
    and a failure of the transport chosen for a resolved endpoint, both end
    in the error payload.  (A cancellation is not an [Exception]: the handler
    does not catch it and it reaches the caller.) *)
Theorem exec_mcp_tool_never_raises env HAVE_SSE_SUPPORT name tool_name parameters w :
  (forall msg,
      outcome_of (exec_mcp_tool env HAVE_SSE_SUPPORT name tool_name parameters) w
        <> Raise (Exception msg)) /\
  (forall msg w',
      dispatch env HAVE_SSE_SUPPORT name tool_name parameters w = (Raise (Exception msg), w') ->
      exec_mcp_tool env HAVE_SSE_SUPPORT name tool_name parameters w
        = (Return (json_dumps (JObj [("error", JStr msg)])), w') /\
      json_loads (json_dumps (JObj [("error", JStr msg)])) = Return (JObj [("error", JStr msg)])) /\
  (forall s w',
      dispatch env HAVE_SSE_SUPPORT name tool_name parameters w = (Return s, w') ->
      exec_mcp_tool env HAVE_SSE_SUPPORT name tool_name parameters w = (Return s, w')) /\
  (forall msg w',
      get_server_endpoint env name w = (Raise (Exception msg), w') ->
      exec_mcp_tool env HAVE_SSE_SUPPORT name tool_name parameters w
        = (Return (json_dumps (JObj [("error", JStr msg)])), w')) /\
  (forall endpoint w1 msg w',
      get_server_endpoint env name w = (Return endpoint, w1) ->
      (if contains "sse" (lower endpoint) && HAVE_SSE_SUPPORT
       then _execute_sse_tool env endpoint tool_name parameters
       else _execute_http_tool env endpoint tool_name parameters) w1
        = (Raise (Exception msg), w') ->
      exec_mcp_tool env HAVE_SSE_SUPPORT name tool_name parameters w
        = (Return (json_dumps (JObj [("error", JStr msg)])), w')).
Proof.
  assert (Hcatch : forall msg w',
             dispatch env HAVE_SSE_SUPPORT name tool_name parameters w
               = (Raise (Exception msg), w') ->
             exec_mcp_tool env HAVE_SSE_SUPPORT name tool_name parameters w
               = (Return (json_dumps (JObj [("error", JStr msg)])), w')).
  { intros msg w' H. unfold exec_mcp_tool.
    now rewrite (try_except_Exception _ _ _ _ _ H). }
  split; [ | split; [ | split; [ | split]]].
  - intros msg. unfold outcome_of, exec_mcp_tool.
    destruct (try_except_total (dispatch env HAVE_SSE_SUPPORT name tool_name parameters)
                error_payload w) as [(a & w' & ->) | (w' & _ & ->)]; discriminate.
  - intros msg w' H. split; [now apply Hcatch | ]. now apply json_loads_dumps.
  - intros s w' H. unfold exec_mcp_tool. now rewrite (try_except_Return _ _ _ _ _ H).
  - intros msg w' H. apply Hcatch. now apply dispatch_unresolved.
  - intros endpoint w1 msg w' H1 H2. apply Hcatch.
    now rewrite (dispatch_resolved _ _ _ _ _ _ _ _ H1).
Qed.

Lemma exec_mcp_tool_never_raises_witness :
  (get_server_endpoint embedding_down "svc-a" empty_world
     = (Raise (Exception "Server 'svc-a' not found"),
        {| collection := []; log := [EvEmbed "svc-a"] |}) /\
   exec_mcp_tool embedding_down true "svc-a" "getWeather" (JObj [("city", JStr "Paris")])
     empty_world
     = (Return (json_dumps (JObj [("error", JStr "Server 'svc-a' not found")])),
        {| collection := []; log := [EvEmbed "svc-a"] |})) /\
  (_execute_sse_tool unreachable "https://mcp.amap.com/SSE?key=k" "geo" (JObj [])
     {| collection := collection amap_world; log := [EvEmbed "amap"; EvQuery [4] 20] |}
     = (Raise (Exception "All connection attempts failed"),
        {| collection := collection amap_world;
           log := [EvEmbed "amap"; EvQuery [4] 20; EvEnter Stream false] |}) /\
   exec_mcp_tool unreachable true "amap" "geo" (JObj []) amap_world
     = (Return (json_dumps (JObj [("error", JStr "All connection attempts failed")])),
        {| collection := collection amap_world;
           log := [EvEmbed "amap"; EvQuery [4] 20; EvEnter Stream false] |})).
Proof.
  split; (split; [reflexivity | ]).
  - exact (proj1 (proj2 (proj2 (proj2 (exec_mcp_tool_never_raises embedding_down true "svc-a"
             "getWeather" (JObj [("city", JStr "Paris")]) empty_world))))
             _ _ eq_refl).
  - exact (proj2 (proj2 (proj2 (proj2 (exec_mcp_tool_never_raises unreachable true "amap"
             "geo" (JObj []) amap_world))))
             "https://mcp.amap.com/SSE?key=k"
             {| collection := collection amap_world; log := [EvEmbed "amap"; EvQuery [4] 20] |}
             _ _ eq_refl eq_refl).
Defined.

(** ** The streaming transport *)

(** C3.  Whatever each step of [_execute_sse_tool] does (return, raise, or be
    cancelled), the resources released by the end are the resources acquired,
    in reverse order of acquisition, and no release comes before the last
    acquisition.  In particular, when the stream has been opened and entering
    the session fails, the stream is closed; and when both have been entered
    and the handshake [session.initialize()] fails, the session and then the
    stream are closed. *)
Theorem sse_tool_releases_in_reverse env endpoint tool_name parameters w :
  (exists evs,
      log (after (_execute_sse_tool env endpoint tool_name parameters) w) = log w ++ evs /\
      releases evs = rev (acquisitions evs) /\
      releases_last evs = true) /\
  (forall e,
      sse_client_aenter env (log w) endpoint = Return tt ->
      ClientSession_aenter env (log w ++ [EvEnter Stream true]) = Raise e ->
      log (after (_execute_sse_tool env endpoint tool_name parameters) w)
        = log w ++ [EvEnter Stream true; EvEnter Session false; EvExit Stream]) /\
  (forall e,
      sse_client_aenter env (log w) endpoint = Return tt ->
      ClientSession_aenter env (log w ++ [EvEnter Stream true]) = Return tt ->
      session_initialize env (log w ++ [EvEnter Stream true; EvEnter Session true]) = Raise e ->
      log (after (_execute_sse_tool env endpoint tool_name parameters) w)
        = log w ++ [EvEnter Stream true; EvEnter Session true; EvInitialize;
                    EvExit Session; EvExit Stream]).
Proof.
  split; [ | split].
  - destruct (_execute_sse_tool_events env endpoint tool_name parameters w)
      as (evs & Hlog & Hrel & Hlast & _).
    now exists evs.
  - intros e H1 H2. unfold_sse. rewrite H1. simpl. rewrite H2. simpl.
    repeat answer; rewrite <- ?app_assoc; reflexivity.
  - intros e H1 H2 H3. unfold_sse. rewrite H1. simpl. rewrite H2. simpl.
    rewrite <- app_assoc. simpl. rewrite H3. simpl.
    repeat answer; rewrite <- ?app_assoc; reflexivity.
Qed.

Lemma sse_tool_releases_in_reverse_witness :
  (ClientSession_aenter cancelled_in_session [EvEnter Stream true] = Raise CancelledError /\
   log (after (_execute_sse_tool cancelled_in_session "http://svc-a/sse" "getWeather" (JObj []))
          empty_world)
     = [EvEnter Stream true; EvEnter Session false; EvExit Stream]) /\
  (session_initialize handshake_fails [EvEnter Stream true; EvEnter Session true]
     = Raise (Exception "handshake failed") /\
   log (after (_execute_sse_tool handshake_fails "http://svc-a/sse" "getWeather" (JObj []))
          empty_world)
     = [EvEnter Stream true; EvEnter Session true; EvInitialize;
        EvExit Session; EvExit Stream]).
Proof.
  split; (split; [reflexivity | ]).
  - exact (proj1 (proj2 (sse_tool_releases_in_reverse cancelled_in_session
                           "http://svc-a/sse" "getWeather" (JObj []) empty_world))
             CancelledError eq_refl eq_refl).
  - exact (proj2 (proj2 (sse_tool_releases_in_reverse handshake_fails
                           "http://svc-a/sse" "getWeather" (JObj []) empty_world))
             (Exception "handshake failed") eq_refl eq_refl eq_refl).
Defined.

(** ** Registration *)

Lemma filter_absent name c :
  ~ In name (map doc_id c) -> filter (fun d => String.eqb (doc_id d) name) c = [].
Proof.
  induction c as [ | x c IH]; simpl; [reflexivity | ].
  intros H. destruct (String.eqb_spec (doc_id x) name) as [E | E].
  - exfalso. apply H. now left.
  - apply IH. intros Hin. apply H. now right.
Qed.

(** After an upsert the store holds exactly one record with that id: the
    record just written. *)
Lemma filter_upsert d c :
  NoDup (map doc_id c) ->
  filter (fun x => String.eqb (doc_id x) (doc_id d)) (upsert d c) = [d].
Proof.
  induction c as [ | y c IH]; simpl; intros Hnd.
  - now rewrite String.eqb_refl.
  - inversion Hnd as [ | ? ? Hy Hc]; subst.
    destruct (String.eqb_spec (doc_id y) (doc_id d)) as [E | E]; simpl.
    + rewrite String.eqb_refl, filter_absent; [reflexivity | now rewrite <- E].
    + destruct (String.eqb_spec (doc_id y) (doc_id d)) as [E' | _]; [contradiction | ].
      now apply IH.
Qed.

Lemma upsert_ids d c k :
  In k (map doc_id (upsert d c)) -> k = doc_id d \/ In k (map doc_id c).
Proof.
  induction c as [ | y c IH]; simpl.
  - intros [<- | []]. now left.
  - destruct (String.eqb (doc_id y) (doc_id d)); simpl.
    + intros [<- | H]; auto.
    + intros [<- | H]; auto. destruct (IH H); auto.
Qed.

Lemma upsert_unique d c : NoDup (map doc_id c) -> NoDup (map doc_id (upsert d c)).
Proof.
  induction c as [ | y c IH]; simpl; intros Hnd.
  - constructor; [intros [] | constructor].
  - inversion Hnd as [ | ? ? Hy Hc]; subst.
    destruct (String.eqb_spec (doc_id y) (doc_id d)) as [E | E]; simpl.
    + constructor; [now rewrite <- E | exact Hc].
    + constructor; [ | now apply IH].
      intros Hin. destruct (upsert_ids _ _ _ Hin); auto.
Qed.

(** Writing over an id already there adds no record. *)
Lemma upsert_length d c :
  In (doc_id d) (map doc_id c) -> List.length (upsert d c) = List.length c.
Proof.
  induction c as [ | y c IH]; simpl; [intros [] | ].
  destruct (String.eqb_spec (doc_id y) (doc_id d)) as [E | E]; simpl; [reflexivity | ].
  intros [H | H]; [contradiction | ]. now rewrite IH.
Qed.

Lemma upsert_In d c : In d (upsert d c).
Proof.
  induction c as [ | x c IH]; simpl; [now left | ].
  destruct (String.eqb (doc_id x) (doc_id d)); [now left | now right].
Qed.

(** The one record with the id of the upserted one is the upserted one. *)
Lemma upsert_lookup d c x :
  NoDup (map doc_id c) -> In x (upsert d c) -> doc_id x = doc_id d -> x = d.
Proof.
  intros Hnd Hin Hid.
  assert (H : In x (filter (fun y => String.eqb (doc_id y) (doc_id d)) (upsert d c))).
  { apply filter_In. split; [exact Hin | now apply String.eqb_eq]. }
  rewrite filter_upsert in H by exact Hnd. now destruct H as [<- | []].
Qed.

Section RegistrationFacts.

Variable env : Env.

(** What a registration that returns has done. *)
Lemma add_server_Return name desc endpoint t w r w1 :
  add_server env name desc endpoint t w = (Return r, w1) ->
  exists v,
    collection w1
    = upsert {| doc_id := name; doc_vector := v;
                doc_fields := {| f_server_description := desc;
                                 f_server_endpoint := endpoint;
                                 f_tools := t |} |} (collection w) /\
    r = JObj [("status", JStr "success");
              ("message", JStr ("Server '" +++ name +++ "' registered."))].
Proof.
  unfold add_server. intros H.
  pose proof (_generate_embedding_collection env desc w) as Hc. unfold after in Hc.
  destruct (_generate_embedding env desc w) as [[v | e] w0] eqn:He.
  - rewrite (bind_Return _ _ _ _ _ He) in H. exists v.
    unfold bind, collection_insert, raise, ret in H. simpl in Hc.
    destruct (insert_response env (log w0) _) as [[ | ] | e]; simpl in H;
      try discriminate.
    injection H as <- <-. simpl. now rewrite Hc.
  - rewrite (bind_Raise _ _ _ _ _ He) in H. discriminate.
Qed.

(** After a registration, every search result that bears the registered
    identity carries the registered fields. *)
Lemma search_after_registration name desc endpoint t w r w1 query top_k w2 rs w3 x :
  unique_ids w ->
  add_server env name desc endpoint t w = (Return r, w1) ->
  collection w2 = collection w1 ->
  search_server env query top_k w2 = (Return rs, w3) ->
  In x rs -> server_name x = name ->
  server_description x = desc /\ server_endpoint x = endpoint /\ tools x = t.
Proof.
  intros Hu Hadd Hc Hs Hx Hn.
  destruct (add_server_Return _ _ _ _ _ _ _ Hadd) as (v & Hw1 & _).
  destruct (search_server_stored env _ _ _ _ _ _ Hs Hx) as (d & Hd & Hid & Hdesc & Hep & Ht).
  rewrite Hc, Hw1 in Hd.
  assert (E : d = {| doc_id := name; doc_vector := v;
                     doc_fields := {| f_server_description := desc;
                                      f_server_endpoint := endpoint;
                                      f_tools := t |} |}).
  { apply (upsert_lookup _ (collection w)); [exact Hu | exact Hd | ].
    simpl. now rewrite <- Hid. }
  subst d. simpl in *. auto.
Qed.

(** A probe that asks for at least as many records as are stored returns an
    entry for each of them. *)
Lemma search_server_covers query top_k w rs w1 d :
  search_server env query top_k w = (Return rs, w1) ->
  (Z.of_nat (List.length (collection w)) <= top_k)%Z ->
  In d (collection w) ->
  exists x, In x rs /\ server_name x = doc_id d.
Proof.
  intros H Hk Hd.
  pose proof (_generate_embedding_collection env query w) as Hc. unfold after in Hc.
  destruct (_generate_embedding env query w) as [[v | e] w0] eqn:He.
  - rewrite (search_server_embedded _ _ _ _ _ _ He) in H. simpl in Hc.
    destruct (query_response env (log w0) v top_k) as [[ | ] | e]; try discriminate.
    injection H as <- _. rewrite Hc.
    exists (result_of_doc (score_doc (similarity env) v d)). split; [ | reflexivity].
    apply in_map. now apply nearest_all.
  - rewrite (search_server_not_embedded _ _ _ _ _ _ He) in H. discriminate.
Qed.

(** [unique_ids] is an invariant of registration. *)
Lemma add_server_unique_ids name desc endpoint t w :
  unique_ids w -> unique_ids (after (add_server env name desc endpoint t) w).
Proof.
  intros Hu. unfold after.
  destruct (add_server env name desc endpoint t w) as [[r | e] w1] eqn:E.
  - destruct (add_server_Return _ _ _ _ _ _ _ E) as (v & Hc & _).
    unfold unique_ids. simpl. rewrite Hc. now apply upsert_unique.
  - unfold add_server in E.
    pose proof (_generate_embedding_collection env desc w) as Hc. unfold after in Hc.
    destruct (_generate_embedding env desc w) as [[v | e'] w0] eqn:He.
    + rewrite (bind_Return _ _ _ _ _ He) in E. simpl in Hc.
      unfold bind, collection_insert, raise, ret in E.
      destruct (insert_response env (log w0) _) as [[ | ] | e']; simpl in E;
        try discriminate; injection E as _ <-; unfold unique_ids; simpl; now rewrite Hc.
    + rewrite (bind_Raise _ _ _ _ _ He) in E. injection E as _ <-.
      unfold unique_ids. simpl in *. now rewrite Hc.
Qed.

End RegistrationFacts.

(** C5.  Modelled from the spec: the store's write is the upsert-by-id of the
    spec's VectorStore contract.  Registering the same identity twice, with
    whatever descriptions, endpoints and tools, leaves exactly one record for
    that identity, with the fields of the second registration; the store
    still has no two records with one id, and the second registration has
    added no record. *)
Theorem add_server_twice_one_record env name desc1 endpoint1 tools1 desc2 endpoint2 tools2
    w r1 w1 r2 w2 :
  unique_ids w ->
  add_server env name desc1 endpoint1 tools1 w = (Return r1, w1) ->
  add_server env name desc2 endpoint2 tools2 w1 = (Return r2, w2) ->
  (exists v2,
      records_of name w2
      = [{| doc_id := name; doc_vector := v2;
            doc_fields := {| f_server_description := desc2;
                             f_server_endpoint := endpoint2;
                             f_tools := tools2 |} |}]) /\
  unique_ids w2 /\
  List.length (collection w2) = List.length (collection w1).
Proof.
  intros Hu H1 H2.
  destruct (add_server_Return _ _ _ _ _ _ _ _ H1) as (v1 & E1 & _).
  destruct (add_server_Return _ _ _ _ _ _ _ _ H2) as (v2 & E2 & _).
  assert (Hu1 : unique_ids w1) by (unfold unique_ids; rewrite E1; now apply upsert_unique).
  split; [ | split].
  - exists v2. unfold records_of. rewrite E2.
    exact (filter_upsert
             {| doc_id := name; doc_vector := v2;
                doc_fields := {| f_server_description := desc2;
                                 f_server_endpoint := endpoint2;
                                 f_tools := tools2 |} |} _ Hu1).
  - unfold unique_ids. rewrite E2. now apply upsert_unique.
  - rewrite E2. apply upsert_length. simpl. rewrite E1.
    apply in_map_iff. eexists. split; [ | apply upsert_In]. reflexivity.
Qed.

Lemma add_server_twice_one_record_witness :
  let w1 := after (add_server all_up "svc-a" "weather lookup" "http://svc-a/mcp" "[]")
              empty_world in
  let w2 := after (add_server all_up "svc-a" "forecasts" "http://svc-a/v2/mcp" "[1]") w1 in
  unique_ids empty_world /\
  (exists v2,
      records_of "svc-a" w2
      = [{| doc_id := "svc-a"; doc_vector := v2;
            doc_fields := {| f_server_description := "forecasts";
                             f_server_endpoint := "http://svc-a/v2/mcp";
                             f_tools := "[1]" |} |}]) /\
  unique_ids w2 /\
  List.length (collection w2) = List.length (collection w1).
Proof.
  intros w1 w2. split; [apply NoDup_nil | ].
  exact (add_server_twice_one_record all_up "svc-a"
           "weather lookup" "http://svc-a/mcp" "[]"
           "forecasts" "http://svc-a/v2/mcp" "[1]"
           empty_world _ w1 _ w2 (NoDup_nil _) eq_refl eq_refl).
Defined.

(** C4, as the code has it.  After a registration that returns, resolving
    the registered identity returns exactly the registered endpoint whenever
    a probe surfaces the record: when the narrow probe returns a result with
    that identity; or when it returns none and the broad probe returns one.
    With at most 100 records in the collection the broad probe always does,
    so resolution then succeeds as soon as the probes themselves return. *)
Theorem register_then_resolve env name desc endpoint t w r w1 rs1 w2 :
  unique_ids w ->
  add_server env name desc endpoint t w = (Return r, w1) ->
  search_server env name 20 w1 = (Return rs1, w2) ->
  (forall x, In x rs1 -> server_name x = name ->
             get_server_endpoint env name w1 = (Return endpoint, w2)) /\
  (forall rs2 w3 x,
      find_exact name rs1 = None ->
      search_server env "" 100 w2 = (Return rs2, w3) ->
      In x rs2 -> server_name x = name ->
      get_server_endpoint env name w1 = (Return endpoint, w3)) /\
  (forall rs2 w3,
      (List.length (collection w1) <= 100)%nat ->
      find_exact name rs1 = None ->
      search_server env "" 100 w2 = (Return rs2, w3) ->
      get_server_endpoint env name w1 = (Return endpoint, w3)).
Proof.
  intros Hu Hadd H1.
  assert (Hc2 : collection w2 = collection w1).
  { pose proof (search_server_collection env name 20 w1) as Hc.
    unfold after in Hc. now rewrite H1 in Hc. }
  assert (Hnarrow : forall endpoint', find_exact name rs1 = Some endpoint' ->
                                      endpoint' = endpoint).
  { intros endpoint' Hf. destruct (find_exact_Some _ _ _ Hf) as (x & Hx & Hn & <-).
    now destruct (search_after_registration env _ _ _ _ _ _ _ _ _ _ _ _ x
                    Hu Hadd eq_refl H1 Hx Hn) as (_ & He & _). }
  assert (Hbroad : forall rs2 w3 x,
             find_exact name rs1 = None ->
             search_server env "" 100 w2 = (Return rs2, w3) ->
             In x rs2 -> server_name x = name ->
             get_server_endpoint env name w1 = (Return endpoint, w3)).
  { intros rs2 w3 x Hf H2 Hx Hn.
    rewrite (get_server_endpoint_broad env _ _ _ _ _ _ H1 Hf H2).
    destruct (find_exact_In _ _ _ Hx Hn) as (endpoint' & Hf2). rewrite Hf2.
    destruct (find_exact_Some _ _ _ Hf2) as (y & Hy & Hyn & <-).
    now destruct (search_after_registration env _ _ _ _ _ _ _ _ _ _ _ _ y
                    Hu Hadd Hc2 H2 Hy Hyn) as (_ & -> & _). }
  split; [ | split].
  - intros x Hx Hn. destruct (find_exact_In _ _ _ Hx Hn) as (endpoint' & Hf).
    rewrite (get_server_endpoint_narrow_hit env _ _ _ _ _ H1 Hf).
    now rewrite (Hnarrow _ Hf).
  - exact Hbroad.
  - intros rs2 w3 Hlen Hf H2.
    destruct (add_server_Return _ _ _ _ _ _ _ _ Hadd) as (v & Hw1 & _).
    destruct (search_server_covers env _ _ _ _ _
                {| doc_id := name; doc_vector := v;
                   doc_fields := {| f_server_description := desc;
                                    f_server_endpoint := endpoint;
                                    f_tools := t |} |} H2) as (x & Hx & Hn).
    + rewrite Hc2. lia.
    + rewrite Hc2, Hw1. apply upsert_In.
    + now apply (Hbroad rs2 w3 x).
Qed.

Lemma register_then_resolve_witness :
  let w1 := after (add_server all_up "svc-a" "weather lookup" "http://svc-a/mcp" "[]")
              empty_world in
  unique_ids empty_world /\
  get_server_endpoint all_up "svc-a" w1
    = (Return "http://svc-a/mcp",
       {| collection := collection w1;
          log := [EvEmbed "weather lookup";
                  EvInsert (mkDoc "svc-a" [14]
                              (mkFields "weather lookup" "http://svc-a/mcp" "[]"));
                  EvEmbed "svc-a"; EvQuery [5] 20] |}).
Proof.
  intros w1. split; [apply NoDup_nil | ].
  refine (proj1 (register_then_resolve all_up "svc-a" "weather lookup" "http://svc-a/mcp" "[]"
                   empty_world _ w1 _ _ (NoDup_nil _) eq_refl eq_refl)
            _ (or_introl eq_refl) eq_refl).
Defined.

(** C4, as stated, fails in a crowded registry: with a hundred other services
    registered, a service whose registration has returned, and whose record
    is in the collection, ranks below the twenty results of the narrow probe
    and below the hundred results of the broad one, and resolving it fails
    with the not-found error although every call along the way succeeds. *)
Lemma register_then_resolve_not_found :
  let w1 := after (add_server all_up "svc-a" "weather lookup" "http://svc-a/mcp" "[]")
              crowded in
  outcome_of (add_server all_up "svc-a" "weather lookup" "http://svc-a/mcp" "[]") crowded
    = Return (JObj [("status", JStr "success");
                    ("message", JStr "Server 'svc-a' registered.")]) /\
  records_of "svc-a" w1
    = [mkDoc "svc-a" [14] (mkFields "weather lookup" "http://svc-a/mcp" "[]")] /\
  List.length (collection w1) = 101%nat /\
  outcome_of (get_server_endpoint all_up "svc-a") w1
    = Raise (Exception "Server 'svc-a' not found").
Proof. vm_compute. repeat split. Qed.

(** ** The operations list, from registration to search *)





(** ** Registration: failures *)

(** X1.  [add_server] fails before it touches the store when the embedding of
    the description fails.  A provider response whose status is not 200 makes
    it raise [Failed to generate embedding: ] followed by the response's
    message; a response of status 200 that carries no embedding makes it raise
    the [IndexError] of [embeddings[0]]; an exception of the provider itself
    goes through unchanged.  In all three cases the provider was called once,
    with the description, the store was not called, and the collection is what
    it was. *)
Theorem add_server_embedding_failure env name desc endpoint t w :
  (forall rsp,
      TextEmbedding_call env (log w) desc = Return rsp ->
      status_code rsp <> 200 ->
      add_server env name desc endpoint t w
        = (Raise (Exception ("Failed to generate embedding: " +++ message rsp)),
           {| collection := collection w; log := log w ++ [EvEmbed desc] |})) /\
  (forall rsp,
      TextEmbedding_call env (log w) desc = Return rsp ->
      status_code rsp = 200 ->
      output_embeddings rsp = [] ->
      add_server env name desc endpoint t w
        = (Raise (Exception "list index out of range"),
           {| collection := collection w; log := log w ++ [EvEmbed desc] |})) /\
  (forall e,
      TextEmbedding_call env (log w) desc = Raise e ->
      add_server env name desc endpoint t w
        = (Raise e, {| collection := collection w; log := log w ++ [EvEmbed desc] |})).
Proof.
  unfold add_server, _generate_embedding, bind, external, raise, record_event.
  split; [ | split].
  - intros rsp -> Hs. apply Z.eqb_neq in Hs. now rewrite Hs.
  - intros rsp -> Hs He. apply Z.eqb_eq in Hs. now rewrite Hs, He.
  - now intros e ->.
Qed.

Lemma add_server_embedding_failure_witness :
  add_server embedding_down "svc-a" "weather lookup" "http://svc-a/mcp" "[]" empty_world
    = (Raise (Exception "Failed to generate embedding: Service Unavailable"),
       {| collection := []; log := [EvEmbed "weather lookup"] |}) /\
  add_server interrupted_in_embedding "svc-a" "weather lookup" "http://svc-a/mcp" "[]" empty_world
    = (Raise CancelledError, {| collection := []; log := [EvEmbed "weather lookup"] |}).
Proof.
  split.
  - refine (proj1 (add_server_embedding_failure embedding_down "svc-a" "weather lookup"
                     "http://svc-a/mcp" "[]" empty_world) _ eq_refl _).
    discriminate.
  - exact (proj2 (proj2 (add_server_embedding_failure interrupted_in_embedding "svc-a"
                           "weather lookup" "http://svc-a/mcp" "[]" empty_world))
             _ eq_refl).
Defined.

(** X2.  When the description was embedded and the store answers the upsert
    with a falsy response, [add_server] raises [Failed to insert server
    '<name>' into DashVector]; it has called the provider once and the store
    once, with the record built from its four arguments, and the collection
    is what it was. *)
Theorem add_server_write_refused env name desc endpoint t w v w1 :
  _generate_embedding env desc w = (Return v, w1) ->
  insert_response env (log w1)
    {| doc_id := name; doc_vector := v;
       doc_fields := {| f_server_description := desc;
                        f_server_endpoint := endpoint;
                        f_tools := t |} |} = Return false ->
  add_server env name desc endpoint t w
    = (Raise (Exception ("Failed to insert server '" +++ name +++ "' into DashVector")),
       {| collection := collection w;
          log := log w ++ [EvEmbed desc;
                           EvInsert {| doc_id := name; doc_vector := v;
                                       doc_fields := {| f_server_description := desc;
                                                        f_server_endpoint := endpoint;
                                                        f_tools := t |} |}] |}).
Proof.
  intros He Hi. unfold add_server. rewrite (bind_Return _ _ _ _ _ He).
  pose proof (_generate_embedding_log env desc w) as Hl.
  pose proof (_generate_embedding_collection env desc w) as Hc.
  unfold after in Hl, Hc. rewrite He in Hl, Hc. simpl in Hl, Hc.
  unfold bind, collection_insert, raise, record_event. rewrite Hi. simpl.
  now rewrite Hl, Hc, <- app_assoc.
Qed.

Lemma add_server_write_refused_witness :
  add_server store_refuses "svc-a" "weather lookup" "http://svc-a/mcp" "[]" empty_world
    = (Raise (Exception "Failed to insert server 'svc-a' into DashVector"),
       {| collection := [];
          log := [EvEmbed "weather lookup";
                  EvInsert (mkDoc "svc-a" [14]
                              (mkFields "weather lookup" "http://svc-a/mcp" "[]"))] |}).
Proof.
  exact (add_server_write_refused store_refuses "svc-a" "weather lookup" "http://svc-a/mcp"
           "[]" empty_world [14] _ eq_refl eq_refl).
Defined.

(** ** Registration: what a success writes *)

Lemma filter_upsert_other d c other :
  doc_id d <> other ->
  filter (fun x => String.eqb (doc_id x) other) (upsert d c)
  = filter (fun x => String.eqb (doc_id x) other) c.
Proof.
  intros Hd. induction c as [ | y c IH]; simpl.
  - destruct (String.eqb_spec (doc_id d) other); [contradiction | reflexivity].
  - destruct (String.eqb_spec (doc_id y) (doc_id d)) as [E | E]; simpl.
    + destruct (String.eqb_spec (doc_id d) other); [contradiction | ].
      destruct (String.eqb_spec (doc_id y) other); [congruence | reflexivity].
    + now rewrite IH.
Qed.

(** X3.  Whenever [add_server] returns, it has made exactly two calls, the
    embedding of the description and one upsert; the record it upserted holds
    the name as its identity, that embedding as its vector and the
    description, endpoint and tools text it was given, and is in the
    collection afterwards; the records of every other identity are the ones
    that were there before. *)
Theorem add_server_writes_one_record env name desc endpoint t w r w1 :
  add_server env name desc endpoint t w = (Return r, w1) ->
  exists v,
    let doc := {| doc_id := name; doc_vector := v;
                  doc_fields := {| f_server_description := desc;
                                   f_server_endpoint := endpoint;
                                   f_tools := t |} |} in
    _generate_embedding env desc w
      = (Return v, {| collection := collection w; log := log w ++ [EvEmbed desc] |}) /\
    log w1 = log w ++ [EvEmbed desc; EvInsert doc] /\
    In doc (collection w1) /\
    (forall other, other <> name -> records_of other w1 = records_of other w).
Proof.
  intros H. unfold add_server in H.
  pose proof (_generate_embedding_log env desc w) as Hl.
  pose proof (_generate_embedding_collection env desc w) as Hc.
  unfold after in Hl, Hc.
  destruct (_generate_embedding env desc w) as [[v | e] w0] eqn:He.
  - rewrite (bind_Return _ _ _ _ _ He) in H. exists v. simpl in Hl, Hc.
    unfold bind, collection_insert, raise, ret, record_event in H.
    destruct (insert_response env (log w0) _) as [[ | ] | e]; simpl in H;
      try discriminate.
    injection H as _ <-. simpl. rewrite Hl, Hc, <- app_assoc.
    split; [ | split; [reflexivity | split]].
    + destruct w0 as [c0 l0]. simpl in *. now subst.
    + apply upsert_In.
    + intros other Hne. unfold records_of. simpl.
      apply filter_upsert_other. simpl. congruence.
  - rewrite (bind_Raise _ _ _ _ _ He) in H. discriminate.
Qed.

Lemma add_server_writes_one_record_witness :
  exists v,
    let doc := mkDoc "svc-b" v (mkFields "weather lookup" "http://svc-b/mcp" "[]") in
    _generate_embedding all_up "weather lookup" amap_world
      = (Return v, {| collection := collection amap_world;
                      log := [EvEmbed "weather lookup"] |}) /\
    log (after (add_server all_up "svc-b" "weather lookup" "http://svc-b/mcp" "[]") amap_world)
      = [EvEmbed "weather lookup"; EvInsert doc] /\
    In doc (collection (after (add_server all_up "svc-b" "weather lookup"
                                 "http://svc-b/mcp" "[]") amap_world)) /\
    (forall other, other <> "svc-b" ->
       records_of other (after (add_server all_up "svc-b" "weather lookup"
                                  "http://svc-b/mcp" "[]") amap_world)
       = records_of other amap_world).
Proof.
  exact (add_server_writes_one_record all_up "svc-b" "weather lookup" "http://svc-b/mcp" "[]"
           amap_world _ _ eq_refl).
Defined.

(** ** Resolution: every path *)

(** The paths through [get_server_endpoint], by what the probes do. *)
Lemma get_server_endpoint_cases env name w :
  let '(r1, w1) := search_server env name 20 w in
  match r1 with
  | Raise CancelledError => get_server_endpoint env name w = (Raise CancelledError, w1)
  | Raise (Exception _) => get_server_endpoint env name w = (Raise (not_found name), w1)
  | Return rs1 =>
      match find_exact name rs1 with
      | Some endpoint => get_server_endpoint env name w = (Return endpoint, w1)
      | None =>
          let '(r2, w2) := search_server env "" 100 w1 in
          match r2 with
          | Raise CancelledError =>
              get_server_endpoint env name w = (Raise CancelledError, w2)
          | Raise (Exception _) =>
              get_server_endpoint env name w = (Raise (not_found name), w2)
          | Return rs2 =>
              get_server_endpoint env name w
              = (match find_exact name rs2 with
                 | Some endpoint => Return endpoint
                 | None => Raise (not_found name)
                 end, w2)
          end
      end
  end.
Proof.
  destruct (search_server env name 20 w) as [[rs1 | [msg | ]] w1] eqn:H1.
  - destruct (find_exact name rs1) as [endpoint | ] eqn:Hf.
    + now apply get_server_endpoint_narrow_hit with rs1.
    + destruct (search_server env "" 100 w1) as [[rs2 | [msg | ]] w2] eqn:H2.
      * now apply get_server_endpoint_broad with rs1 w1.
      * now apply get_server_endpoint_broad_raises with rs1 w1 msg.
      * unfold get_server_endpoint, bind at 1, try_except.
        now rewrite (bind_Return _ _ _ _ _ H1), Hf, (bind_Raise _ _ _ _ _ H2).
  - now apply get_server_endpoint_narrow_raises with msg.
  - unfold get_server_endpoint, bind at 1, try_except.
    now rewrite (bind_Raise _ _ _ _ _ H1).
Qed.

(** What [get_server_endpoint] leaves in the log: the calls of the narrow
    probe and, after a narrow probe that returned without the name, those of
    the broad one. *)
Lemma get_server_endpoint_events env name w :
  collection (after (get_server_endpoint env name) w) = collection w /\
  exists evs,
    log (after (get_server_endpoint env name) w) = log w ++ EvEmbed name :: evs /\
    (evs = [] \/
     (exists v, evs = [EvQuery v 20]) \/
     (exists v, evs = [EvQuery v 20; EvEmbed ""]) \/
     (exists v v', evs = [EvQuery v 20; EvEmbed ""; EvQuery v' 100])).
Proof.
  pose proof (get_server_endpoint_cases env name w) as H.
  pose proof (search_server_log env name 20 w) as L1.
  pose proof (search_server_Return_log env name 20 w) as R1.
  pose proof (search_server_collection env name 20 w) as C1.
  unfold after in *.
  destruct (search_server env name 20 w) as [r1 w1]. simpl in L1, C1.
  assert (Hone : collection w1 = collection w /\
                 exists evs, log w1 = log w ++ EvEmbed name :: evs /\
                   (evs = [] \/
                    (exists v, evs = [EvQuery v 20]) \/
                    (exists v, evs = [EvQuery v 20; EvEmbed ""]) \/
                    (exists v v', evs = [EvQuery v 20; EvEmbed ""; EvQuery v' 100]))).
  { split; [exact C1 | ]. destruct L1 as [L1 | (v & L1)].
    - exists []. split; [exact L1 | now left].
    - exists [EvQuery v 20]. split; [exact L1 | right; left; now exists v]. }
  destruct r1 as [rs1 | [msg | ]]; try (rewrite H; exact Hone).
  destruct (find_exact name rs1); [rewrite H; exact Hone | ].
  destruct (R1 rs1 w1 eq_refl) as (v & L1').
  pose proof (search_server_log env "" 100 w1) as L2.
  pose proof (search_server_collection env "" 100 w1) as C2.
  unfold after in *.
  destruct (search_server env "" 100 w1) as [r2 w2]. simpl in L2, C2.
  assert (Htwo : collection w2 = collection w /\
                 exists evs, log w2 = log w ++ EvEmbed name :: evs /\
                   (evs = [] \/
                    (exists v, evs = [EvQuery v 20]) \/
                    (exists v, evs = [EvQuery v 20; EvEmbed ""]) \/
                    (exists v v', evs = [EvQuery v 20; EvEmbed ""; EvQuery v' 100]))).
  { split; [congruence | ]. destruct L2 as [L2 | (v' & L2)].
    - exists [EvQuery v 20; EvEmbed ""]. split.
      + rewrite L2, L1', <- app_assoc. reflexivity.
      + right; right; left. now exists v.
    - exists [EvQuery v 20; EvEmbed ""; EvQuery v' 100]. split.
      + rewrite L2, L1', <- app_assoc. reflexivity.
      + right; right; right. now exists v, v'. }
  destruct r2 as [rs2 | [msg | ]]; rewrite H; exact Htwo.
Qed.

(** X4.  Whatever the outside world does, [get_server_endpoint] only reads:
    the collection is unchanged, the first call is the embedding of the name,
    at most three calls follow it, and each of them is an embedding or a
    store query (no upsert, no request to a service). *)
Theorem get_server_endpoint_calls env name w :
  collection (after (get_server_endpoint env name) w) = collection w /\
  exists evs,
    log (after (get_server_endpoint env name) w) = log w ++ EvEmbed name :: evs /\
    (List.length evs <= 3)%nat /\
    forallb is_probe_call evs = true.
Proof.
  destruct (get_server_endpoint_events env name w) as (C & evs & L & S).
  split; [exact C | ]. exists evs. split; [exact L | ].
  destruct S as [-> | [(v & ->) | [(v & ->) | (v & v' & ->)]]]; simpl; split;
    first [lia | reflexivity].
Qed.

(** X5.  An endpoint returned by [get_server_endpoint] is never invented:
    the collection holds a record whose identity is the name asked for and
    whose endpoint field is the value returned. *)
Theorem get_server_endpoint_returns_stored env name w endpoint w1 :
  get_server_endpoint env name w = (Return endpoint, w1) ->
  exists d, In d (collection w) /\ doc_id d = name /\
            f_server_endpoint (doc_fields d) = endpoint.
Proof.
  intros Hg. pose proof (get_server_endpoint_cases env name w) as H.
  pose proof (search_server_collection env name 20 w) as C1. unfold after in C1.
  destruct (search_server env name 20 w) as [[rs1 | [msg | ]] wa] eqn:H1;
    try (rewrite H in Hg; discriminate).
  assert (Hfound : forall query top_k wb rs wc endpoint',
             collection wb = collection w ->
             search_server env query top_k wb = (Return rs, wc) ->
             find_exact name rs = Some endpoint' ->
             exists d, In d (collection w) /\ doc_id d = name /\
                       f_server_endpoint (doc_fields d) = endpoint').
  { intros query top_k wb rs wc endpoint' Hc Hs Hf.
    destruct (find_exact_Some _ _ _ Hf) as (x & Hx & Hn & He).
    destruct (search_server_stored env _ _ _ _ _ _ Hs Hx) as (d & Hd & Hid & _ & Hep & _).
    exists d. rewrite <- Hc. repeat split; congruence. }
  destruct (find_exact name rs1) as [endpoint' | ] eqn:Hf.
  - rewrite H in Hg. injection Hg as <- _.
    exact (Hfound _ _ w _ _ _ eq_refl H1 Hf).
  - destruct (search_server env "" 100 wa) as [[rs2 | [msg | ]] wb] eqn:H2;
      try (rewrite H in Hg; discriminate).
    rewrite H in Hg. destruct (find_exact name rs2) as [endpoint' | ] eqn:Hf2;
      [ | discriminate].
    injection Hg as <- _. exact (Hfound _ _ wa _ _ _ C1 H2 Hf2).
Qed.

Lemma get_server_endpoint_returns_stored_witness :
  exists d, In d (collection amap_world) /\ doc_id d = "amap" /\
            f_server_endpoint (doc_fields d) = "https://mcp.amap.com/SSE?key=k".
Proof.
  exact (get_server_endpoint_returns_stored all_up "amap" amap_world _ _ eq_refl).
Defined.

(** X6.  The only [Exception] [get_server_endpoint] ever raises is
    [Server '<name>' not found]: whatever went wrong in a probe (provider
    down, query refused), the caller sees this message and no other. *)
Theorem get_server_endpoint_only_not_found env name w msg :
  outcome_of (get_server_endpoint env name) w = Raise (Exception msg) ->
  msg = "Server '" +++ name +++ "' not found".
Proof.
  unfold outcome_of. pose proof (get_server_endpoint_cases env name w) as H.
  destruct (search_server env name 20 w) as [[rs1 | [m | ]] w1].
  - destruct (find_exact name rs1); [rewrite H; discriminate | ].
    destruct (search_server env "" 100 w1) as [[rs2 | [m | ]] w2]; rewrite H.
    + destruct (find_exact name rs2); [discriminate | ]. now intros [= <-].
    + now intros [= <-].
    + discriminate.
  - rewrite H. now intros [= <-].
  - rewrite H. discriminate.
Qed.

Lemma get_server_endpoint_only_not_found_witness :
  outcome_of (get_server_endpoint store_refuses "svc-a") empty_world
    = Raise (Exception "Server 'svc-a' not found") /\
  "Server 'svc-a' not found" = "Server '" +++ "svc-a" +++ "' not found".
Proof.
  split; [reflexivity | ].
  exact (get_server_endpoint_only_not_found store_refuses "svc-a" empty_world _ eq_refl).
Defined.

(** ** What the decoder builds *)











(** ** The caller-facing search and registration *)









(** X10.  [add_mcp_server] raises no [Exception] and leaves the world as its
    one [add_server] call, made with the [json.dumps] text of the tools, left
    it.  When that call returns, the answer decodes to the success object
    naming the server; when it raises an [Exception], the answer decodes to
    an object with the single key [error] holding the message. *)
Theorem add_mcp_server_answers_json env name desc endpoint (t : list json) w :
  (forall msg,
      outcome_of (add_mcp_server env name desc endpoint t) w <> Raise (Exception msg)) /\
  after (add_mcp_server env name desc endpoint t) w
    = after (add_server env name desc endpoint (json_dumps (JArr t))) w /\
  (forall r,
      outcome_of (add_server env name desc endpoint (json_dumps (JArr t))) w = Return r ->
      exists text,
        outcome_of (add_mcp_server env name desc endpoint t) w = Return text /\
        json_loads text
          = Return (JObj [("status", JStr "success");
                          ("message", JStr ("Server '" +++ name +++ "' registered."))])) /\
  (forall msg,
      outcome_of (add_server env name desc endpoint (json_dumps (JArr t))) w
        = Raise (Exception msg) ->
      exists text,
        outcome_of (add_mcp_server env name desc endpoint t) w = Return text /\
        json_loads text = Return (JObj [("error", JStr msg)])).
Proof.
  unfold outcome_of, after, add_mcp_server, try_except, bind.
  destruct (add_server env name desc endpoint (json_dumps (JArr t)) w)
    as [[r | [msg | ]] w1] eqn:E; cbn [fst snd ret].
  - destruct (add_server_Return _ _ _ _ _ _ _ _ E) as (v & _ & ->).
    split; [discriminate | split; [reflexivity | split; [ | discriminate]]].
    intros r _. eexists. split; [reflexivity | ]. now apply json_loads_dumps.
  - split; [discriminate | split; [reflexivity | split; [discriminate | ]]].
    intros msg' H. assert (msg' = msg) by congruence. subst msg'.
    eexists. split; [reflexivity | ]. unfold error_payload. now apply json_loads_dumps.
  - split; [discriminate | split; [reflexivity | split; discriminate]].
Qed.

Lemma add_mcp_server_answers_json_witness :
  (outcome_of (add_server all_up "svc-a" "weather lookup" "http://svc-a/mcp"
                 (json_dumps (JArr []))) empty_world
     = Return (JObj [("status", JStr "success");
                     ("message", JStr "Server 'svc-a' registered.")]) /\
   exists text,
     outcome_of (add_mcp_server all_up "svc-a" "weather lookup" "http://svc-a/mcp" [])
       empty_world = Return text /\
     json_loads text
       = Return (JObj [("status", JStr "success");
                       ("message", JStr ("Server '" +++ "svc-a" +++ "' registered."))])) /\
  (outcome_of (add_server store_refuses "svc-a" "weather lookup" "http://svc-a/mcp"
                 (json_dumps (JArr []))) empty_world
     = Raise (Exception "Failed to insert server 'svc-a' into DashVector") /\
   exists text,
     outcome_of (add_mcp_server store_refuses "svc-a" "weather lookup" "http://svc-a/mcp" [])
       empty_world = Return text /\
     json_loads text
       = Return (JObj [("error", JStr "Failed to insert server 'svc-a' into DashVector")])).
Proof.
  split; (split; [reflexivity | ]).
  - exact (proj1 (proj2 (proj2 (add_mcp_server_answers_json all_up "svc-a" "weather lookup"
                                  "http://svc-a/mcp" [] empty_world))) _ eq_refl).
  - exact (proj2 (proj2 (proj2 (add_mcp_server_answers_json store_refuses "svc-a"
                                  "weather lookup" "http://svc-a/mcp" [] empty_world)))
             _ eq_refl).
Defined.

(** ** The streaming transport: order and outcome *)

(** The calls of the streaming transport are stream calls, and it leaves the
    collection alone. *)
Lemma _execute_sse_tool_stream_calls env endpoint tool_name parameters w :
  collection (after (_execute_sse_tool env endpoint tool_name parameters) w) = collection w /\
  exists evs,
    log (after (_execute_sse_tool env endpoint tool_name parameters) w) = log w ++ evs /\
    forallb is_stream_call evs = true.
Proof.
  unfold_sse. repeat answer; rewrite <- ?app_assoc; simpl;
    (split; [reflexivity | eexists; split; reflexivity]).
Qed.

(** X11.  The steps of [_execute_sse_tool] happen in the order of the source
    and each only after the one before it succeeded: the session is entered
    only after the stream was entered, [initialize] is called only after both
    were entered, and the tool is called, with the given name and parameters,
    only after [initialize] returned. *)
Theorem sse_tool_steps_in_order env endpoint tool_name parameters w evs :
  log (after (_execute_sse_tool env endpoint tool_name parameters) w) = log w ++ evs ->
  (forall acquired, In (EvEnter Session acquired) evs ->
     sse_client_aenter env (log w) endpoint = Return tt /\
     exists rest, evs = EvEnter Stream true :: EvEnter Session acquired :: rest) /\
  (In EvInitialize evs ->
     ClientSession_aenter env (log w ++ [EvEnter Stream true]) = Return tt /\
     exists rest, evs = EvEnter Stream true :: EvEnter Session true :: EvInitialize :: rest) /\
  (forall name arguments, In (EvCallTool name arguments) evs ->
     session_initialize env (log w ++ [EvEnter Stream true; EvEnter Session true]) = Return tt /\
     exists rest,
       evs = EvEnter Stream true :: EvEnter Session true :: EvInitialize
             :: EvCallTool tool_name parameters :: rest).
Proof.
  unfold_sse. repeat answer; rewrite <- ?app_assoc; simpl;
    intros H; apply app_inv_head in H; subst evs;
    (split; [ | split]); simpl; intros;
    repeat match goal with
      | H : _ \/ _ |- _ => destruct H
      | H : False |- _ => destruct H
      | H : _ = _ |- _ => discriminate H
      | H : EvEnter _ _ = EvEnter _ _ |- _ => injection H as <-
      end;
    rewrite <- ?app_assoc in *; simpl in *;
    (split; [first [assumption | reflexivity] | eexists; reflexivity]).
Qed.

Lemma sse_tool_steps_in_order_witness :
  let evs := [EvEnter Stream true; EvEnter Session true; EvInitialize;
              EvCallTool "geo" (JObj []); EvExit Session; EvExit Stream] in
  log (after (_execute_sse_tool all_up "http://svc-a/sse" "geo" (JObj [])) empty_world)
    = log empty_world ++ evs /\
  In (EvCallTool "geo" (JObj [])) evs /\
  session_initialize all_up (log empty_world ++ [EvEnter Stream true; EvEnter Session true])
    = Return tt /\
  exists rest,
    evs = EvEnter Stream true :: EvEnter Session true :: EvInitialize
          :: EvCallTool "geo" (JObj []) :: rest.
Proof.
  intros evs. split; [reflexivity | split; [right; right; right; now left | ]].
  exact (proj2 (proj2 (sse_tool_steps_in_order all_up "http://svc-a/sse" "geo" (JObj [])
                         empty_world evs eq_refl))
           "geo" (JObj []) (or_intror (or_intror (or_intror (or_introl eq_refl))))).
Defined.

(** A contradiction between a clean-up that never raises and one that did. *)
Ltac quiet Hquiet :=
  match goal with
  | H : resource_aexit _ ?h ?r = Raise _ |- _ =>
      let b := fresh "b" in
      let Hb := fresh "Hb" in
      destruct (Hquiet h r) as [b Hb]; rewrite Hb in H; discriminate H
  end.

(** X12.  When no context manager raises on exit, the outcome of
    [_execute_sse_tool] is decided by its four steps alone: the exception of
    the first step that fails, or else the serialization of the flattened
    result of the tool call.  A context manager that answers its exit with a
    true value suppresses nothing, since the stack is closed in the
    [finally] clause, where no exception is passed to it. *)
Theorem sse_tool_outcome_when_cleanup_is_quiet env endpoint tool_name parameters w :
  (forall h r, exists suppress, resource_aexit env h r = Return suppress) ->
  outcome_of (_execute_sse_tool env endpoint tool_name parameters) w =
    match sse_client_aenter env (log w) endpoint with
    | Raise e => Raise e
    | Return _ =>
        match ClientSession_aenter env (log w ++ [EvEnter Stream true]) with
        | Raise e => Raise e
        | Return _ =>
            match session_initialize env
                    (log w ++ [EvEnter Stream true; EvEnter Session true]) with
            | Raise e => Raise e
            | Return _ =>
                match session_call_tool env
                        (log w ++ [EvEnter Stream true; EvEnter Session true; EvInitialize])
                        tool_name parameters with
                | Raise e => Raise e
                | Return result => Return (json_dumps (flatten result))
                end
            end
        end
    end.
Proof.
  intros Hquiet. unfold_sse. rewrite <- ?app_assoc. simpl.
  destruct (sse_client_aenter env (log w) endpoint) as [[] | e]; simpl.
  2:{ reflexivity. }
  destruct (ClientSession_aenter env (log w ++ [EvEnter Stream true])) as [[] | e]; simpl.
  2:{ repeat answer; try quiet Hquiet; reflexivity. }
  rewrite <- ?app_assoc. simpl.
  destruct (session_initialize env (log w ++ [EvEnter Stream true; EvEnter Session true]))
    as [[] | e]; simpl.
  2:{ rewrite <- ?app_assoc; simpl. repeat answer; try quiet Hquiet; reflexivity. }
  rewrite <- ?app_assoc. simpl.
  destruct (session_call_tool env
              (log w ++ [EvEnter Stream true; EvEnter Session true; EvInitialize])
              tool_name parameters) as [result | e]; simpl;
    rewrite <- ?app_assoc; simpl; repeat answer; try quiet Hquiet; reflexivity.
Qed.

Lemma sse_tool_outcome_when_cleanup_is_quiet_witness :
  (forall h r, exists suppress, resource_aexit handshake_fails_suppressing h r = Return suppress) /\
  outcome_of (_execute_sse_tool handshake_fails_suppressing "http://svc-a/sse" "geo" (JObj []))
    empty_world
    = Raise (Exception "handshake failed").
Proof.
  assert (Hq : forall h r, exists suppress,
               resource_aexit handshake_fails_suppressing h r = Return suppress)
    by (intros h r; exists true; reflexivity).
  split; [exact Hq | ].
  exact (sse_tool_outcome_when_cleanup_is_quiet handshake_fails_suppressing
           "http://svc-a/sse" "geo" (JObj []) empty_world Hq).
Defined.

(** X13.  A failure while closing replaces the outcome: once the stream was
    entered, if closing it raises, [_execute_sse_tool] raises that exception,
    whether the tool call had returned a result or a step had failed with
    another exception. *)
Theorem sse_tool_failed_close_replaces_outcome env endpoint tool_name parameters w e :
  sse_client_aenter env (log w) endpoint = Return tt ->
  (forall h, resource_aexit env h Stream = Raise e) ->
  outcome_of (_execute_sse_tool env endpoint tool_name parameters) w = Raise e.
Proof.
  intros Henter Hclose. unfold_sse. rewrite Henter. simpl.
  repeat answer; rewrite ?Hclose; try reflexivity;
    repeat match goal with
      | H : resource_aexit _ _ Stream = Return _ |- _ => rewrite Hclose in H; discriminate H
      | H : resource_aexit _ _ Stream = Raise _ |- _ => rewrite Hclose in H; injection H as <-
      end; try reflexivity.
Qed.

Lemma sse_tool_failed_close_replaces_outcome_witness :
  session_call_tool close_fails
    [EvEnter Stream true; EvEnter Session true; EvInitialize] "geo" (JObj [])
    = Return (WithDict (JObj [("content", JStr "geo"); ("isError", JBool false)])) /\
  outcome_of (_execute_sse_tool close_fails "http://svc-a/sse" "geo" (JObj [])) empty_world
    = Raise (Exception "stream close failed").
Proof.
  split; [reflexivity | ].
  exact (sse_tool_failed_close_replaces_outcome close_fails "http://svc-a/sse" "geo" (JObj [])
           empty_world _ eq_refl (fun _ => eq_refl)).
Defined.

(** ** The dispatcher: whom it contacts *)

(** X14.  [exec_mcp_tool] never writes to the registry and contacts nothing
    but the endpoint it resolved: the collection is unchanged and no upsert
    is made; a POST request goes to the endpoint [get_server_endpoint]
    returned, with the JSON-RPC request for the given tool and parameters,
    and only when the endpoint has no [sse] marker or SSE support is
    missing; a call of the streaming transport is made only with SSE
    support, after [get_server_endpoint] returned an endpoint with the
    marker. *)
Theorem exec_mcp_tool_contacts_resolved_endpoint env HAVE_SSE_SUPPORT name tool_name
    parameters w evs :
  log (after (exec_mcp_tool env HAVE_SSE_SUPPORT name tool_name parameters) w)
    = log w ++ evs ->
  collection (after (exec_mcp_tool env HAVE_SSE_SUPPORT name tool_name parameters) w)
    = collection w /\
  (forall d, ~ In (EvInsert d) evs) /\
  (forall endpoint body,
      In (EvPost endpoint body) evs ->
      body = json_rpc_request tool_name parameters /\
      contains "sse" (lower endpoint) && HAVE_SSE_SUPPORT = false /\
      exists w1, get_server_endpoint env name w = (Return endpoint, w1)) /\
  (forall ev,
      In ev evs -> is_stream_call ev = true ->
      HAVE_SSE_SUPPORT = true /\
      exists endpoint w1,
        get_server_endpoint env name w = (Return endpoint, w1) /\
        contains "sse" (lower endpoint) = true).
Proof.
  intros Hlog.
  destruct (get_server_endpoint_events env name w) as (Cg & pevs & Lg & Sg).
  assert (Hprobe : forall ev, In ev (EvEmbed name :: pevs) -> is_probe_call ev = true).
  { intros ev [<- | Hin]; [reflexivity | ].
    destruct Sg as [-> | [(v & ->) | [(v & ->) | (v & v' & ->)]]]; simpl in Hin;
      repeat (destruct Hin as [<- | Hin]; [reflexivity | ]); destruct Hin. }
  unfold after in Cg, Lg.
  destruct (get_server_endpoint env name w) as [[endpoint | e] w1] eqn:Hg;
    simpl in Cg, Lg.
  - assert (A : after (exec_mcp_tool env HAVE_SSE_SUPPORT name tool_name parameters) w
                = after (if contains "sse" (lower endpoint) && HAVE_SSE_SUPPORT
                         then _execute_sse_tool env endpoint tool_name parameters
                         else _execute_http_tool env endpoint tool_name parameters) w1).
    { unfold exec_mcp_tool. rewrite (try_except_after _ error_payload).
      unfold after. now rewrite (dispatch_resolved _ _ _ _ _ _ _ _ Hg). }
    rewrite A in Hlog |- *.
    destruct (contains "sse" (lower endpoint) && HAVE_SSE_SUPPORT) eqn:Hsel.
    + destruct (_execute_sse_tool_stream_calls env endpoint tool_name parameters w1)
        as (Cs & sevs & Ls & Ps).
      rewrite Ls, Lg, <- app_assoc in Hlog. apply app_inv_head in Hlog. subst evs.
      assert (Hstream : forall ev, In ev sevs -> is_stream_call ev = true)
        by (intros ev; apply (proj1 (forallb_forall _ _) Ps)).
      assert (Hin : forall ev, In ev ((EvEmbed name :: pevs) ++ sevs) ->
                               is_probe_call ev = true \/ is_stream_call ev = true).
      { intros ev Hev. apply in_app_or in Hev. destruct Hev; auto. }
      apply andb_prop in Hsel. destruct Hsel as [Hm Hs].
      split; [congruence | split; [ | split]].
      * intros d Hd. now destruct (Hin _ Hd).
      * intros ep body Hp. now destruct (Hin _ Hp).
      * intros ev _ _. split; [exact Hs | now exists endpoint, w1].
    + unfold after in Hlog |- *. rewrite _execute_http_tool_run in Hlog |- *.
      simpl in Hlog |- *. rewrite Lg, <- app_assoc in Hlog.
      apply app_inv_head in Hlog. subst evs.
      assert (Hin : forall ev,
                 In ev ((EvEmbed name :: pevs)
                        ++ [EvPost endpoint (json_rpc_request tool_name parameters)]) ->
                 is_probe_call ev = true \/
                 ev = EvPost endpoint (json_rpc_request tool_name parameters)).
      { intros ev Hev. apply in_app_or in Hev. destruct Hev as [Hev | [<- | []]]; auto. }
      split; [exact Cg | split; [ | split]].
      * intros d Hd. now destruct (Hin _ Hd).
      * intros ep body Hp. destruct (Hin _ Hp) as [Hx | Hx]; [discriminate | ].
        injection Hx as -> ->. split; [reflexivity | split; [exact Hsel | now exists w1]].
      * intros ev Hev Hs. destruct (Hin _ Hev) as [Hx | ->]; [ | discriminate].
        destruct ev; discriminate.
  - assert (A : after (exec_mcp_tool env HAVE_SSE_SUPPORT name tool_name parameters) w = w1).
    { unfold exec_mcp_tool. rewrite (try_except_after _ error_payload).
      unfold after. now rewrite (dispatch_unresolved _ _ _ _ _ _ _ _ Hg). }
    rewrite A in Hlog |- *. rewrite Lg in Hlog. apply app_inv_head in Hlog. subst evs.
    split; [exact Cg | split; [ | split]].
    + intros d Hd. now specialize (Hprobe _ Hd).
    + intros ep body Hp. now specialize (Hprobe _ Hp).
    + intros ev Hev Hs. specialize (Hprobe _ Hev). destruct ev; discriminate.
Qed.

Lemma exec_mcp_tool_contacts_resolved_endpoint_witness :
  let evs := [EvEmbed "amap"; EvQuery [4] 20;
              EvPost "https://mcp.amap.com/SSE?key=k" (json_rpc_request "geo" (JObj []))] in
  log (after (exec_mcp_tool all_up false "amap" "geo" (JObj [])) amap_world)
    = log amap_world ++ evs /\
  In (EvPost "https://mcp.amap.com/SSE?key=k" (json_rpc_request "geo" (JObj []))) evs /\
  exists w1,
    get_server_endpoint all_up "amap" amap_world
      = (Return "https://mcp.amap.com/SSE?key=k", w1).
Proof.
  intros evs. split; [reflexivity | split; [right; right; now left | ]].
  exact (proj2 (proj2 (proj1 (proj2 (proj2
           (exec_mcp_tool_contacts_resolved_endpoint all_up false "amap" "geo" (JObj [])
              amap_world evs eq_refl)))
           _ _ (or_intror (or_intror (or_introl eq_refl)))))).
Defined.

(** ** Interruptions *)



(** ** The streaming marker *)

Lemma prefix_spec p s : String.prefix p s = true <-> exists post, s = p +++ post.
Proof.
  revert s. induction p as [ | a p IH]; intros s.
  - destruct s; simpl; (split; [intros _; eexists; reflexivity | reflexivity]).
  - destruct s as [ | b s]; simpl.
    + split; [discriminate | intros [post H]; discriminate].
    + destruct (ascii_dec a b) as [<- | Hab].
      * split.
        -- intros H. apply IH in H. destruct H as [post ->]. now exists post.
        -- intros [post H]. injection H as ->. apply IH. now exists post.
      * split; [discriminate | ]. intros [post H]. injection H as H _. now elim Hab.
Qed.

(** [sub in s] holds exactly when [s] is some text, then [sub], then some
    text. *)
Lemma contains_spec sub s :
  contains sub s = true <-> exists pre post, s = pre +++ sub +++ post.
Proof.
  induction s as [ | c s IH].
  - change (contains sub EmptyString) with (String.prefix sub EmptyString || false).
    rewrite orb_false_r, prefix_spec. split.
    + intros [post H]. now exists EmptyString, post.
    + intros (pre & post & H). destruct pre; [now exists post | discriminate].
  - change (contains sub (String c s))
      with (String.prefix sub (String c s) || contains sub s).
    rewrite orb_true_iff, prefix_spec, IH. split.
    + intros [[post H] | (pre & post & H)].
      * now exists EmptyString, post.
      * exists (String c pre), post. simpl. now rewrite H.
    + intros (pre & post & H). destruct pre as [ | a pre]; simpl in H.
      * left. now exists post.
      * right. injection H as _ H. now exists pre, post.
Qed.

Lemma lower_append a b : lower (a +++ b) = lower a +++ lower b.
Proof. induction a as [ | c a IH]; simpl; [reflexivity | now rewrite IH]. Qed.

(** A split of the lower-cased text is the lower-casing of a split. *)
Lemma lower_split s a b :
  lower s = a +++ b -> exists s1 s2, s = s1 +++ s2 /\ lower s1 = a /\ lower s2 = b.
Proof.
  revert s. induction a as [ | c a IH]; intros s H; simpl in H.
  - now exists EmptyString, s.
  - destruct s as [ | c' s]; [discriminate | ]. simpl in H. injection H as Hc H.
    destruct (IH _ H) as (s1 & s2 & -> & <- & <-).
    exists (String c' s1), s2. simpl. now rewrite Hc.
Qed.

Lemma lower_char_idempotent c : lower_char (lower_char c) = lower_char c.
Proof. each_char c; reflexivity. Qed.

(** X16.  The transport test of [exec_mcp_tool] holds exactly when the
    endpoint contains, anywhere (host name, path or query), three consecutive
    characters that are [sse] up to case; and it gives the same answer on the
    endpoint and on its lower-case form. *)
Theorem sse_marker_anywhere_any_case target_endpoint :
  (contains "sse" (lower target_endpoint) = true <->
   exists pre mark post,
     target_endpoint = pre +++ mark +++ post /\ lower mark = "sse") /\
  contains "sse" (lower (lower target_endpoint)) = contains "sse" (lower target_endpoint).
Proof.
  split.
  - rewrite contains_spec. split.
    + intros (pre' & post' & H).
      destruct (lower_split _ _ _ H) as (pre & rest & -> & <- & H2).
      destruct (lower_split _ _ _ H2) as (mark & post & -> & Hm & <-).
      now exists pre, mark, post.
    + intros (pre & mark & post & -> & Hm).
      exists (lower pre), (lower post). now rewrite !lower_append, Hm.
  - f_equal. induction target_endpoint as [ | c s IH]; simpl; [reflexivity | ].
    now rewrite lower_char_idempotent, IH.
Qed.

Lemma sse_marker_anywhere_any_case_witness :
  contains "sse" (lower "http://classes.example.com/mcp") = true /\
  exists pre mark post,
    "http://classes.example.com/mcp" = pre +++ mark +++ post /\ lower mark = "sse".
Proof.
  split; [reflexivity | ].
  exact (proj1 (proj1 (sse_marker_anywhere_any_case "http://classes.example.com/mcp"))
           eq_refl).
Defined.

(** ** Start-up *)

(** X17.  [DiscoveryService.__init__] starts with one lookup of the
    collection and makes at most two more calls to the client, a creation and
    a second lookup, in this order; it creates the collection only when the
    first lookup raised an [Exception]; and when the first lookup returns, it
    keeps the object returned, whatever its truth value, without any other
    call. *)
Theorem init_creates_only_after_a_failed_lookup client name dimension calls :
  exists new,
    snd (DiscoveryService__init__ client name dimension calls)
      = calls ++ ClientGet name :: new /\
    (new = [] \/
     new = [ClientCreate name dimension] \/
     new = [ClientCreate name dimension; ClientGet name]) /\
    (new <> [] -> exists msg, client_get client calls name = Raise (Exception msg)) /\
    (forall h, client_get client calls name = Return h ->
               DiscoveryService__init__ client name dimension calls
                 = (Return h, calls ++ [ClientGet name])).
Proof.
  unfold DiscoveryService__init__, try_except, client_call, bind, raise, ret.
  destruct (client_get client calls name) as [h | [msg | ]] eqn:Hget; simpl.
  - exists []. split; [reflexivity | split; [now left | split]].
    + intros H. now elim H.
    + intros h' H. now injection H as <-.
  - destruct (client_create client (calls ++ [ClientGet name]) name dimension)
      as [[ | ] | e]; simpl.
    + exists [ClientCreate name dimension; ClientGet name].
      split; [ | split; [now right; right | ]].
      * destruct (client_get client
                    ((calls ++ [ClientGet name]) ++ [ClientCreate name dimension]) name)
          as [h | e]; simpl;
          [destruct (handle_truth h); simpl | ]; now rewrite <- !app_assoc.
      * split; [intros _; now exists msg | discriminate].
    + exists [ClientCreate name dimension].
      split; [now rewrite <- app_assoc | split; [now right; left | ]].
      split; [intros _; now exists msg | discriminate].
    + exists [ClientCreate name dimension].
      split; [now rewrite <- app_assoc | split; [now right; left | ]].
      split; [intros _; now exists msg | discriminate].
  - exists []. split; [reflexivity | split; [now left | split]].
    + intros H. now elim H.
    + discriminate.
Qed.

Lemma init_creates_only_after_a_failed_lookup_witness :
  client_get falsy_lookup [] "mcp_services_collection"
    = Return {| handle_truth := false; handle_ref := 0 |} /\
  DiscoveryService__init__ falsy_lookup "mcp_services_collection" 1024 []
    = (Return {| handle_truth := false; handle_ref := 0 |},
       [ClientGet "mcp_services_collection"]).
Proof.
  split; [reflexivity | ].
  destruct (init_creates_only_after_a_failed_lookup falsy_lookup "mcp_services_collection"
              1024 []) as (new & _ & _ & _ & H).
  exact (H _ eq_refl).
Defined.

(** X18.  After a first lookup that raised, [DiscoveryService.__init__]
    raises [Failed to create DashVector collection] when the creation's
    response is falsy, without a second lookup; after a creation that
    succeeded, it keeps the object of the second lookup when it is truthy and
    raises [Failed to get DashVector collection after creation] otherwise.
    So the only falsy object [__init__] can leave in [self.collection] is the
    one returned by the first lookup, which is not checked. *)
Theorem init_after_a_failed_lookup client name dimension calls :
  (forall msg,
      client_get client calls name = Raise (Exception msg) ->
      client_create client (calls ++ [ClientGet name]) name dimension = Return false ->
      DiscoveryService__init__ client name dimension calls
        = (Raise (Exception "Failed to create DashVector collection"),
           calls ++ [ClientGet name; ClientCreate name dimension])) /\
  (forall msg h,
      client_get client calls name = Raise (Exception msg) ->
      client_create client (calls ++ [ClientGet name]) name dimension = Return true ->
      client_get client (calls ++ [ClientGet name; ClientCreate name dimension]) name
        = Return h ->
      DiscoveryService__init__ client name dimension calls
        = (if handle_truth h then Return h
           else Raise (Exception "Failed to get DashVector collection after creation"),
           calls ++ [ClientGet name; ClientCreate name dimension; ClientGet name])) /\
  (forall h,
      fst (DiscoveryService__init__ client name dimension calls) = Return h ->
      handle_truth h = false ->
      client_get client calls name = Return h).
Proof.
  unfold DiscoveryService__init__, try_except, client_call, bind, raise, ret.
  split; [ | split].
  - intros msg Hget Hcreate. rewrite Hget, Hcreate. simpl. now rewrite <- app_assoc.
  - intros msg h Hget Hcreate Hget2. rewrite Hget, Hcreate. simpl.
    rewrite <- app_assoc. simpl. rewrite Hget2.
    destruct (handle_truth h); simpl; now rewrite <- !app_assoc.
  - intros h. destruct (client_get client calls name) as [h0 | [msg | ]]; simpl.
    + now intros [= ->].
    + destruct (client_create client (calls ++ [ClientGet name]) name dimension)
        as [[ | ] | e]; simpl; try discriminate.
      destruct (client_get client
                  ((calls ++ [ClientGet name]) ++ [ClientCreate name dimension]) name)
        as [h1 | e]; simpl; [ | discriminate].
      destruct (handle_truth h1) eqn:Ht; simpl; [ | discriminate].
      intros [= <-] Hf. congruence.
    + discriminate.
Qed.

Lemma init_after_a_failed_lookup_witness :
  DiscoveryService__init__ cannot_create "mcp_services_collection" 1024 []
    = (Raise (Exception "Failed to create DashVector collection"),
       [ClientGet "mcp_services_collection";
        ClientCreate "mcp_services_collection" 1024]) /\
  DiscoveryService__init__ first_start "mcp_services_collection" 1024 []
    = (Return {| handle_truth := true; handle_ref := 1 |},
       [ClientGet "mcp_services_collection";
        ClientCreate "mcp_services_collection" 1024;
        ClientGet "mcp_services_collection"]) /\
  client_get falsy_lookup [] "mcp_services_collection"
    = Return {| handle_truth := false; handle_ref := 0 |}.
Proof.
  destruct (init_after_a_failed_lookup cannot_create "mcp_services_collection" 1024 [])
    as (Ha & _ & _).
  destruct (init_after_a_failed_lookup first_start "mcp_services_collection" 1024 [])
    as (_ & Hb & _).
  destruct (init_after_a_failed_lookup falsy_lookup "mcp_services_collection" 1024 [])
    as (_ & _ & Hc).
  split; [exact (Ha _ eq_refl eq_refl) | split].
  - exact (Hb _ _ eq_refl eq_refl eq_refl).
  - exact (Hc _ eq_refl eq_refl).
Defined.

(** ** The mock discovery service *)

(** With the real service the general router is the router of the claims. *)
Lemma exec_mcp_tool_over_DiscoveryService env HAVE_SSE_SUPPORT name tool_name parameters :
  exec_mcp_tool_over env HAVE_SSE_SUPPORT (get_server_endpoint env) name tool_name parameters
  = exec_mcp_tool env HAVE_SSE_SUPPORT name tool_name parameters.
Proof. reflexivity. Qed.

Lemma add_mcp_server_over_DiscoveryService env name desc endpoint t :
  add_mcp_server_over (add_server env) name desc endpoint t
  = add_mcp_server env name desc endpoint t.
Proof. reflexivity. Qed.

(** X19.  With [MockDiscoveryService] installed, registration and dispatch
    are disconnected: [add_mcp_server] answers with the success object naming
    the server and changes nothing, and [exec_mcp_tool] sends every tool
    call, whatever the target server's name and whether or not SSE support is
    present, as one POST request to [http://example.com/mcp]. *)
Theorem mock_ignores_the_registry env HAVE_SSE_SUPPORT name desc endpoint (t : list json)
    tool_name parameters w :
  add_mcp_server_over MockDiscoveryService_add_server name desc endpoint t w
  = (Return (json_dumps (JObj [("status", JStr "success");
                               ("message", JStr ("Server '" +++ name +++ "' registered."))])),
     w) /\
  exec_mcp_tool_over env HAVE_SSE_SUPPORT MockDiscoveryService_get_server_endpoint
    name tool_name parameters w
  = try_except (_execute_http_tool env "http://example.com/mcp" tool_name parameters)
      (fun msg => ret (json_dumps (JObj [("error", JStr msg)]))) w /\
  log (after (exec_mcp_tool_over env HAVE_SSE_SUPPORT
                MockDiscoveryService_get_server_endpoint name tool_name parameters) w)
  = log w ++ [EvPost "http://example.com/mcp" (json_rpc_request tool_name parameters)].
Proof.
  assert (E : exec_mcp_tool_over env HAVE_SSE_SUPPORT MockDiscoveryService_get_server_endpoint
                name tool_name parameters w
              = try_except (_execute_http_tool env "http://example.com/mcp" tool_name
                              parameters)
                  (fun msg => ret (error_payload msg)) w)
    by reflexivity.
  split; [reflexivity | split; [exact E | ]].
  unfold after at 1. rewrite E.
  change (log (after (try_except (_execute_http_tool env "http://example.com/mcp" tool_name
                                    parameters)
                        (fun msg => ret (error_payload msg))) w)
          = log w ++ [EvPost "http://example.com/mcp" (json_rpc_request tool_name parameters)]).
  rewrite (try_except_after _ error_payload). unfold after.
  now rewrite _execute_http_tool_run.
Qed.

(** ** Search: a refused query, an empty registry, a fresh registration *)

(** X20.  When the query text was embedded and the store answers the query
    with a falsy response, [search_server] raises [Failed to query
    DashVector], and [search_mcp_server] returns the error object with this
    message; the provider and the store were each called once and the
    collection is what it was. *)
Theorem search_server_query_refused env query top_k w v w1 :
  _generate_embedding env query w = (Return v, w1) ->
  query_response env (log w1) v top_k = Return false ->
  search_server env query top_k w
    = (Raise (Exception "Failed to query DashVector"),
       {| collection := collection w; log := log w ++ [EvEmbed query; EvQuery v top_k] |}) /\
  search_mcp_server env query top_k w
    = (Return (json_dumps (JObj [("error", JStr "Failed to query DashVector")])),
       {| collection := collection w; log := log w ++ [EvEmbed query; EvQuery v top_k] |}).
Proof.
  intros He Hq.
  pose proof (_generate_embedding_log env query w) as Hl.
  pose proof (_generate_embedding_collection env query w) as Hc.
  unfold after in Hl, Hc. rewrite He in Hl, Hc. simpl in Hl, Hc.
  assert (Hs : search_server env query top_k w
               = (Raise (Exception "Failed to query DashVector"),
                  {| collection := collection w;
                     log := log w ++ [EvEmbed query; EvQuery v top_k] |})).
  { rewrite (search_server_embedded _ _ _ _ _ _ He), Hq. unfold record_event.
    now rewrite Hl, Hc, <- app_assoc. }
  split; [exact Hs | ].
  unfold search_mcp_server.
  now rewrite (try_except_Exception _ _ _ _ _ (bind_Raise _ _ _ _ _ Hs)).
Qed.

Lemma search_server_query_refused_witness :
  _generate_embedding query_refused "weather" empty_world
    = (Return [7], {| collection := []; log := [EvEmbed "weather"] |}) /\
  search_mcp_server query_refused "weather" 3 empty_world
    = (Return (json_dumps (JObj [("error", JStr "Failed to query DashVector")])),
       {| collection := []; log := [EvEmbed "weather"; EvQuery [7] 3] |}).
Proof.
  split; [reflexivity | ].
  exact (proj2 (search_server_query_refused query_refused "weather" 3 empty_world [7] _
                  eq_refl eq_refl)).
Defined.

(** X21.  After a server was registered in a registry with one record per
    identity, every result of a later search that bears its name carries the
    description, endpoint and tools text it was registered with; and a
    search that asks for at least as many results as the registry holds
    records lists the server. *)
Theorem register_then_search env name desc endpoint t w r w1 query top_k rs w2 :
  unique_ids w ->
  add_server env name desc endpoint t w = (Return r, w1) ->
  search_server env query top_k w1 = (Return rs, w2) ->
  (forall x, In x rs -> server_name x = name ->
             server_description x = desc /\ server_endpoint x = endpoint /\ tools x = t) /\
  (Z.of_nat (List.length (collection w1)) <= top_k ->
   exists x, In x rs /\ server_name x = name).
Proof.
  intros Hu Hadd Hs. split.
  - intros x Hx Hn.
    exact (search_after_registration env _ _ _ _ _ _ _ _ _ _ _ _ x Hu Hadd eq_refl Hs Hx Hn).
  - intros Hk. destruct (add_server_Return _ _ _ _ _ _ _ _ Hadd) as (v & Hw1 & _).
    destruct (search_server_covers env _ _ _ _ _
                {| doc_id := name; doc_vector := v;
                   doc_fields := {| f_server_description := desc;
                                    f_server_endpoint := endpoint;
                                    f_tools := t |} |} Hs Hk) as (x & Hx & Hn).
    + rewrite Hw1. apply upsert_In.
    + now exists x.
Qed.

Lemma register_then_search_witness :
  let w1 := after (add_server all_up "svc-b" "weather lookup" "http://svc-b/mcp" "[]")
              amap_world in
  unique_ids amap_world /\
  Z.of_nat (List.length (collection w1)) <= 3 /\
  exists x, In x (match outcome_of (search_server all_up "maps" 3) w1 with
                  | Return rs => rs
                  | Raise _ => []
                  end) /\ server_name x = "svc-b".
Proof.
  intros w1. split; [repeat constructor; simpl; tauto | split; [vm_compute; discriminate | ]].
  refine (proj2 (register_then_search all_up "svc-b" "weather lookup" "http://svc-b/mcp" "[]"
                   amap_world _ w1 "maps" 3 _ _ _ eq_refl eq_refl) _).
  - repeat constructor. simpl. tauto.
  - vm_compute. discriminate.
Defined.

(** X22.  A search of an empty registry that the store answers yields no
    result, and [search_mcp_server] answers with the text of the empty list,
    not with an error object. *)
Theorem search_of_an_empty_registry env query top_k w rs w1 :
  collection w = [] ->
  search_server env query top_k w = (Return rs, w1) ->
  rs = [] /\ search_mcp_server env query top_k w = (Return "[]", w1).
Proof.
  intros Hc Hs.
  assert (E : rs = []).
  { destruct rs as [ | x rs]; [reflexivity | ].
    destruct (search_server_stored env _ _ _ _ _ x Hs (or_introl eq_refl)) as (d & Hd & _).
    rewrite Hc in Hd. destruct Hd. }
  subst rs. split; [reflexivity | ].
  unfold search_mcp_server. apply try_except_Return.
  now rewrite (bind_Return _ _ _ _ _ Hs).
Qed.

Lemma search_of_an_empty_registry_witness :
  search_mcp_server all_up "maps" 3 empty_world
  = (Return "[]", {| collection := []; log := [EvEmbed "maps"; EvQuery [4] 3] |}).
Proof.
  exact (proj2 (search_of_an_empty_registry all_up "maps" 3 empty_world _ _ eq_refl eq_refl)).
Defined.
